(** * Vedic chart API: the handlers of [app.py], embedded and verified

    The service has two request handlers, [geocode_place] and
    [compute_natal], and one arithmetic helper, [lon_to_sign_deg].  All the
    numbers they handle are Python floats, that is IEEE-754 binary64 values,
    and the properties of interest depend on how [%], [//], [+] and [-]
    round.  The development therefore starts with a small executable model
    of binary64 ([B64]), continues with the Python operators the program
    uses ([Py]), and then embeds the program itself. *)

From Stdlib Require Import ZArith List String Ascii Bool Lia Znumtheory.
From Stdlib Require Import Sorted Permutation OrderedTypeEx.
Import ListNotations.
Local Open Scope Z_scope.

(* ================================================================== *)
(** ** Binary64 arithmetic on scaled integers *)
(* ================================================================== *)

Module B64.

(** Every finite binary64 value is an integer multiple of [2^-1074], the
    smallest subnormal.  A finite float is represented by that integer:
    [Fin n] stands for the real number [n * 2^-1074].  The two IEEE zeros
    are identified ([Fin 0]): every operator this program applies sends
    both to the same result. *)
Inductive float : Type :=
| NaN
| Inf (neg : bool)
| Fin (n : Z).

(** [U] is 1.0 in scaled units, [OVF] is [2^1024], the overflow threshold. *)
Definition U : Z := 2 ^ 1074.
Definition OVF : Z := 2 ^ 2098.

(** The float with the integer value [z] (for [z] small enough to need no
    rounding, as all literals of the program are). *)
Definition of_Z (z : Z) : float := Fin (z * U).

(** Quotient [a / d] rounded to the nearest integer, ties to even
    ([0 <= a], [0 < d]). *)
Definition rhe (a d : Z) : Z :=
  let q := a / d in
  let r := a mod d in
  if 2 * r <? d then q
  else if d <? 2 * r then q + 1
  else if Z.even q then q else q + 1.

(** Exponent of the unit in the last place of a non-negative scaled
    magnitude [f]: 53 significant bits, never below the subnormal grid. *)
Definition ulp_exp (f : Z) : Z := Z.max 0 (Z.log2 f - 52).

(** Round-to-nearest-even of the non-negative rational [a / b], in scaled
    units. *)
Definition rnd_pos (a b : Z) : Z :=
  let k := ulp_exp (a / b) in
  rhe a (b * 2 ^ k) * 2 ^ k.

(** Correctly rounded value of the rational [p / q] ([q <> 0]), with
    overflow to infinity. *)
Definition round_q (p q : Z) : float :=
  let n := Z.sgn p * Z.sgn q * rnd_pos (Z.abs p) (Z.abs q) in
  if OVF <=? Z.abs n then Inf (n <? 0) else Fin n.

Definition round (n : Z) : float := round_q n 1.

(** [is_b64 n]: the scaled integer [n] is a binary64 value. *)
Definition is_b64 (n : Z) : bool :=
  (Z.abs n <? OVF) && (n mod 2 ^ ulp_exp (Z.abs n) =? 0).

Definition wf (x : float) : bool :=
  match x with
  | Fin n => is_b64 n
  | _ => true
  end.

Definition fneg (x : float) : float :=
  match x with
  | NaN => NaN
  | Inf s => Inf (negb s)
  | Fin n => Fin (- n)
  end.

Definition fadd (x y : float) : float :=
  match x, y with
  | NaN, _ | _, NaN => NaN
  | Inf a, Inf b => if Bool.eqb a b then Inf a else NaN
  | Inf a, Fin _ => Inf a
  | Fin _, Inf b => Inf b
  | Fin a, Fin b => round (a + b)
  end.

Definition fsub (x y : float) : float := fadd x (fneg y).

Definition fdiv (x y : float) : float :=
  match x, y with
  | NaN, _ | _, NaN => NaN
  | Inf _, Inf _ => NaN
  | Inf a, Fin b => Inf (xorb a (b <? 0))
  | Fin a, Inf _ => Fin 0
  | Fin a, Fin b =>
      if b =? 0 then (if a =? 0 then NaN else Inf (a <? 0))
      else round_q (a * U) b
  end.

(** C's [fmod]: the remainder has the sign of the dividend and is exact. *)
Definition fmod (x y : float) : float :=
  match x, y with
  | NaN, _ | _, NaN => NaN
  | Inf _, _ => NaN
  | Fin a, Inf _ => Fin a
  | Fin a, Fin b => if b =? 0 then NaN else Fin (Z.rem a b)
  end.

(** C's [floor]. *)
Definition ffloor (x : float) : float :=
  match x with
  | Fin a => Fin (a / U * U)
  | _ => x
  end.

(** C comparisons: false as soon as an operand is NaN. *)
Definition flt (x y : float) : bool :=
  match x, y with
  | NaN, _ | _, NaN => false
  | Inf a, Inf b => a && negb b
  | Inf a, Fin _ => a
  | Fin _, Inf b => negb b
  | Fin a, Fin b => a <? b
  end.

Definition feq (x y : float) : bool :=
  match x, y with
  | NaN, _ | _, NaN => false
  | Inf a, Inf b => Bool.eqb a b
  | Fin a, Fin b => a =? b
  | _, _ => false
  end.

(** C truth value of a double: anything but zero. *)
Definition nonzero (x : float) : bool := negb (feq x (Fin 0)).

End B64.

(* ================================================================== *)
(** ** The Python operators the program applies *)
(* ================================================================== *)

Module Py.
Import B64.

(** The exceptions that can travel through the handlers.  [LibraryError]
    stands for whatever an external library raises (a geocoder timeout, a
    Swiss Ephemeris error): it is not an [HTTPException]. *)
Inductive exn : Type :=
| HTTPException (status_code : Z) (detail : string)
| ValueError (msg : string)
| IndexError
| OverflowError
| ZeroDivisionError
| StopIteration
| LibraryError (msg : string).

Inductive result (A : Type) : Type :=
| Ok (a : A)
| Raise (e : exn).
Arguments Ok {A} a.
Arguments Raise {A} e.

Definition rbind {A B : Type} (r : result A) (k : A -> result B) : result B :=
  match r with
  | Ok a => k a
  | Raise e => Raise e
  end.

(** [float.__mod__] ([float_rem] of floatobject.c): C's [fmod], then the
    remainder is moved to the sign of the divisor by a rounded addition. *)
Definition float_rem (vx wx : float) : result float :=
  if feq wx (Fin 0) then Raise ZeroDivisionError
  else
    let md := fmod vx wx in
    Ok (if nonzero md
        then if xorb (flt wx (Fin 0)) (flt md (Fin 0))
             then fadd md wx else md
        else Fin 0).

(** [float.__floordiv__] ([float_floor_div], through [_float_div_mod]). *)
Definition float_floor_div (vx wx : float) : result float :=
  if feq wx (Fin 0) then Raise ZeroDivisionError
  else
    let md := fmod vx wx in
    let div := fdiv (fsub vx md) wx in
    let div := if nonzero md && xorb (flt wx (Fin 0)) (flt md (Fin 0))
               then fsub div (of_Z 1) else div in
    Ok (if nonzero div
        then let floordiv := ffloor div in
             if flt (Fin (U / 2)) (fsub div floordiv)
             then fadd floordiv (of_Z 1) else floordiv
        else Fin 0).

(** [int(x)] of a float: truncation towards zero. *)
Definition int_of_float (x : float) : result Z :=
  match x with
  | NaN => Raise (ValueError "cannot convert float NaN to integer")
  | Inf _ => Raise OverflowError
  | Fin a => Ok (Z.quot a U)
  end.

(** The conversion of an int operand of a float operator. *)
Definition float_of_int (z : Z) : result float :=
  match round (z * U) with
  | Fin n => Ok (Fin n)
  | _ => Raise OverflowError
  end.

(** [a / b] on ints: the correctly rounded quotient. *)
Definition int_true_div (a b : Z) : result float :=
  if b =? 0 then Raise ZeroDivisionError
  else match round_q (a * U) b with
       | Fin n => Ok (Fin n)
       | _ => Raise OverflowError
       end.

(** [l[i]] on a list or tuple: negative indexes count from the end. *)
Definition getitem {A : Type} (l : list A) (i : Z) : result A :=
  let n := Z.of_nat (List.length l) in
  let j := if i <? 0 then i + n else i in
  if (j <? 0) || (n <=? j) then Raise IndexError
  else match nth_error l (Z.to_nat j) with
       | Some a => Ok a
       | None => Raise IndexError
       end.

(** [str.lower] on the ASCII letters; other bytes are left as they are
    (no code point outside ASCII lowers to one of l, a, h, i, r). *)
Definition lower_ascii (c : ascii) : ascii :=
  let n := nat_of_ascii c in
  if (Nat.leb 65 n && Nat.leb n 90)%bool then ascii_of_nat (n + 32) else c.

Fixpoint lower (s : string) : string :=
  match s with
  | EmptyString => EmptyString
  | String c s' => String (lower_ascii c) (lower s')
  end.

End Py.

Import B64 Py.

Declare Scope py_scope.
Delimit Scope py_scope with py.
Notation "x <- r ;; k" := (rbind r (fun x => k))
  (at level 61, r at next level, right associativity) : py_scope.
Notation "' pat <- r ;; k" := (rbind r (fun x => match x with pat => k end))
  (at level 61, pat pattern, r at next level, right associativity) : py_scope.

(* ================================================================== *)
(** ** [app.py]: constants and the sign/degree mapping *)
(* ================================================================== *)

Local Open Scope string_scope.

Definition SIGNS : list string :=
  [ "Aries"; "Taurus"; "Gemini"; "Cancer"; "Leo"; "Virgo";
    "Libra"; "Scorpio"; "Sagittarius"; "Capricorn"; "Aquarius"; "Pisces" ].

(** <<
    def lon_to_sign_deg(lon: float):
        lon = lon % 360.0
        sign_index = int(lon // 30)
        deg = lon - sign_index * 30
        return SIGNS[sign_index], deg
    >> *)
Definition lon_to_sign_deg (lon : float) : result (string * float) :=
  (lon <- float_rem lon (of_Z 360) ;;
   w <- float_of_int 30 ;;
   q <- float_floor_div lon w ;;
   sign_index <- int_of_float q ;;
   f <- float_of_int (sign_index * 30) ;;
   let deg := fsub lon f in
   s <- getitem SIGNS sign_index ;;
   Ok (s, deg))%py.

(* ================================================================== *)
(** ** The external libraries and the process state *)
(* ================================================================== *)

(** Constants of the [swisseph] module (values of swephexp.h). *)
Module swe.
Definition SUN : Z := 0.
Definition MOON : Z := 1.
Definition MERCURY : Z := 2.
Definition VENUS : Z := 3.
Definition MARS : Z := 4.
Definition JUPITER : Z := 5.
Definition SATURN : Z := 6.
Definition TRUE_NODE : Z := 11.
Definition SIDM_LAHIRI : Z := 1.
Definition FLG_SWIEPH : Z := 2.
Definition FLG_SIDEREAL : Z := 65536.

(** The library's process-wide settings, written by [set_sid_mode] and
    [set_ephe_path] and read by every later computation. *)
Record config : Type := {
  sid_mode : Z;
  t0 : Z;
  ayan_t0 : Z;
  ephe_path : string
}.
End swe.

(** A [datetime] value, by its fields. *)
Module datetime.
Record t : Type := {
  year : Z; month : Z; day : Z;
  hour : Z; minute : Z; second : Z; microsecond : Z
}.
End datetime.

(** What [GEO.geocode] returns on a match. *)
Module Location.
Record t : Type := {
  latitude : float;
  longitude : float;
  address : string
}.
End Location.

(** What a library call does: it returns a value or raises an exception of
    its own (never FastAPI's [HTTPException]). *)
Inductive answer (A : Type) : Type :=
| Returns (a : A)
| Fails (msg : string).
Arguments Returns {A} a.
Arguments Fails {A} msg.

Definition outcome {A : Type} (r : answer A) : result A :=
  match r with
  | Returns a => Ok a
  | Fails msg => Raise (LibraryError msg)
  end.

(** The libraries the handlers call, as functions of their arguments and,
    for Swiss Ephemeris, of the settings in force: the ephemeris data.
    [calc_ut] returns the tuple of which the program keeps the first two
    components. *)
Record externals : Type := {
  tzinfo : Type;
  fromisoformat : string -> answer datetime.t;
  gettz : string -> option tzinfo;
  astimezone_utc : datetime.t -> tzinfo -> answer datetime.t;
  isoformat : datetime.t -> string;
  repr : exn -> string;
  julday : Z -> Z -> Z -> float -> answer float;
  houses : swe.config -> float -> float -> float -> string ->
           answer (list float * list float);
  get_ayanamsa_ut : swe.config -> float -> answer float;
  calc_ut : swe.config -> float -> Z -> Z -> answer (list float);
  geocode : string -> Z -> answer (option Location.t)
}.

(** Every call that leaves the handler, and every line it prints. *)
Inductive event : Type :=
| CallFromisoformat (s : string)
| CallGettz (tzid : string)
| CallAstimezone (dt : datetime.t)
| CallJulday (year month day : Z) (hour : float)
| CallHouses (jd lat lon : float) (hsys : string)
| CallGetAyanamsaUt (jd : float)
| CallCalcUt (jd : float) (pid flags : Z)
| CallGeocode (place : string) (timeout : Z)
| Print (a b : string)
| PrintExc (e : exn).

Definition is_ephemeris_call (ev : event) : bool :=
  match ev with
  | CallJulday _ _ _ _ | CallHouses _ _ _ _
  | CallGetAyanamsaUt _ | CallCalcUt _ _ _ => true
  | _ => false
  end.

(** The state of the process: the ephemeris settings, and the history of
    calls and output so far (most recent last). *)
Record world : Type := {
  swe_state : swe.config;
  trace : list event
}.

(** Handlers are computations over the process state that return a value
    or raise. *)
Definition M (A : Type) : Type := world -> result A * world.

Definition ret {A : Type} (a : A) : M A := fun w => (Ok a, w).

Definition raise {A : Type} (e : exn) : M A := fun w => (Raise e, w).

Definition bind {A B : Type} (m : M A) (k : A -> M B) : M B :=
  fun w => match m w with
           | (Ok a, w') => k a w'
           | (Raise e, w') => (Raise e, w')
           end.

Definition lift {A : Type} (r : result A) : M A := fun w => (r, w).

Definition emit (ev : event) : M unit :=
  fun w => (Ok tt, {| swe_state := swe_state w; trace := trace w ++ [ev] |}).

Definition settings : M swe.config := fun w => (Ok (swe_state w), w).

(** [try: body except HTTPException: raise except Exception as e: h e]. *)
Definition try_except {A : Type} (body : M A) (h : exn -> M A) : M A :=
  fun w => match body w with
           | (Ok a, w') => (Ok a, w')
           | (Raise (HTTPException c d), w') => (Raise (HTTPException c d), w')
           | (Raise e, w') => h e w'
           end.

Declare Scope m_scope.
Delimit Scope m_scope with M.
Notation "x <- c ;; k" := (bind c (fun x => k))
  (at level 61, c at next level, right associativity) : m_scope.
Notation "' pat <- c ;; k" := (bind c (fun x => match x with pat => k end))
  (at level 61, pat pattern, c at next level, right associativity) : m_scope.
Notation "c ;;; k" := (bind c (fun _ => k))
  (at level 61, right associativity) : m_scope.

(** <<
    swe.set_sid_mode(swe.SIDM_LAHIRI, 0, 0)
    swe.set_ephe_path(os.environ.get("SE_EPHE_PATH", ""))
    >> *)
Definition startup (SE_EPHE_PATH : option string) : world :=
  {| swe_state := {| swe.sid_mode := swe.SIDM_LAHIRI; swe.t0 := 0;
                     swe.ayan_t0 := 0;
                     swe.ephe_path := match SE_EPHE_PATH with
                                      | Some p => p
                                      | None => ""
                                      end |};
     trace := [] |}.

(** An external call: recorded, then answered by the library. *)
Definition call {A : Type} (ev : event) (r : answer A) : M A :=
  (emit ev ;;; lift (outcome r))%M.

(* ================================================================== *)
(** ** [app.py]: request and response models *)
(* ================================================================== *)

Module GeocodeReq.
Record t : Type := { place : string }.
End GeocodeReq.

Module GeocodeResp.
Record t : Type := {
  lat : float;
  lon : float;
  tzid : string;
  normalized_place : string
}.
End GeocodeResp.

Module NatalReq.
Record t : Type := {
  date : string;
  time : string;
  tzid : string;
  lat : float;
  lon : float;
  ayanamsha : string
}.
End NatalReq.

Module PlanetOut.
Record t : Type := {
  name : string;
  lon : float;
  sign : string;
  degree : float
}.
End PlanetOut.

Module NatalResp.
Record t : Type := {
  birth_utc : string;
  ascendant : PlanetOut.t;
  planets : list PlanetOut.t
}.
End NatalResp.

(** The [PLANETS] dict, in insertion order, which is the order in which
    [items()] yields it. *)
Definition PLANETS : list (string * option Z) :=
  [ ("Sun", Some swe.SUN);
    ("Moon", Some swe.MOON);
    ("Mars", Some swe.MARS);
    ("Mercury", Some swe.MERCURY);
    ("Jupiter", Some swe.JUPITER);
    ("Venus", Some swe.VENUS);
    ("Saturn", Some swe.SATURN);
    ("Rahu", Some swe.TRUE_NODE);
    ("Ketu", None) ].

(** [sorted(l, key=lambda x: x.name)]: the stable sort by name, strings
    compared character by character. *)
Fixpoint insert_by_name (p : PlanetOut.t) (l : list PlanetOut.t)
  : list PlanetOut.t :=
  match l with
  | [] => [p]
  | q :: l' =>
      if String.leb (PlanetOut.name p) (PlanetOut.name q)
      then p :: q :: l'
      else q :: insert_by_name p l'
  end.

Definition sorted_by_name (l : list PlanetOut.t) : list PlanetOut.t :=
  fold_right insert_by_name [] l.

(** [a, b = t]: unpacking a sequence into two names. *)
Definition unpack2 {A : Type} (t : list A) : result (A * A) :=
  match t with
  | [a; b] => Ok (a, b)
  | _ => Raise (ValueError "unpack")
  end.

(** [next(p.lon for p in planets_out if p.name == n)]. *)
Definition next_lon (n : string) (planets_out : list PlanetOut.t)
  : result float :=
  match find (fun p => String.eqb (PlanetOut.name p) n) planets_out with
  | Some p => Ok (PlanetOut.lon p)
  | None => Raise StopIteration
  end.

(* ================================================================== *)
(** ** [app.py]: the handlers *)
(* ================================================================== *)

Section Handlers.

Variable X : externals.

(** <<
    def geocode_place(req: GeocodeReq):
        loc = GEO.geocode(req.place, timeout=20)
        if not loc:
            raise HTTPException(404, "Place not found")
        lat, lon = float(loc.latitude), float(loc.longitude)
        return GeocodeResp(lat=lat, lon=lon, tzid="UNKNOWN",
                           normalized_place=str(loc))
    >> *)
Definition geocode_place (req : GeocodeReq.t) : M GeocodeResp.t :=
  (loc <- call (CallGeocode (GeocodeReq.place req) 20)
               (geocode X (GeocodeReq.place req) 20) ;;
   match loc with
   | None => raise (HTTPException 404 "Place not found")
   | Some loc =>
       let lat := Location.latitude loc in
       let lon := Location.longitude loc in
       ret {| GeocodeResp.lat := lat; GeocodeResp.lon := lon;
              GeocodeResp.tzid := "UNKNOWN";
              GeocodeResp.normalized_place := Location.address loc |}
   end)%M.

(** <<
    def to_utc(d: str, t: str, tzid: str) -> datetime:
        dt_local = datetime.fromisoformat(f"{d}T{t}")
        local_tz = tz.gettz(tzid)
        if local_tz is None:
            raise ValueError("Invalid tzid")
        dt_local = dt_local.replace(tzinfo=local_tz)
        return dt_local.astimezone(timezone.utc)
    >> *)
Definition to_utc (d t tzid : string) : M datetime.t :=
  (let s := d ++ "T" ++ t in
   dt_local <- call (CallFromisoformat s) (fromisoformat X s) ;;
   local_tz <- call (CallGettz tzid) (Returns (gettz X tzid)) ;;
   match local_tz with
   | None => raise (ValueError "Invalid tzid")
   | Some local_tz =>
       call (CallAstimezone dt_local) (astimezone_utc X dt_local local_tz)
   end)%M.

(** The body of the [for name, pid in PLANETS.items()] loop, run over the
    remaining items; [planets_out] is the list built so far. *)
Fixpoint planet_loop (jd_ut : float) (flags : Z)
    (items : list (string * option Z)) (planets_out : list PlanetOut.t)
  : M (list PlanetOut.t) :=
  match items with
  | [] => ret planets_out
  | (name, pid) :: rest =>
      if String.eqb name "Ketu" then planet_loop jd_ut flags rest planets_out
      else
        (cfg <- settings ;;
         xs <- match pid with
               | Some pid => call (CallCalcUt jd_ut pid flags)
                                  (calc_ut X cfg jd_ut pid flags)
               | None => raise (LibraryError "TypeError")
               end ;;
         '(lon, _) <- lift (unpack2 (firstn 2 xs)) ;;
         lon <- lift (float_rem lon (of_Z 360)) ;;
         '(sign, deg) <- lift (lon_to_sign_deg lon) ;;
         planet_loop jd_ut flags rest
           (planets_out ++
            [{| PlanetOut.name := name; PlanetOut.lon := lon;
                PlanetOut.sign := sign; PlanetOut.degree := deg |}])%list)%M
  end.

(** The [try] block of [compute_natal]. *)
Definition natal_body (req : NatalReq.t) : M NatalResp.t :=
  (if negb (String.eqb (lower (NatalReq.ayanamsha req)) "lahiri")
   then raise (HTTPException 400 "Only lahiri supported")
   else
     dt_utc <- to_utc (NatalReq.date req) (NatalReq.time req)
                      (NatalReq.tzid req) ;;
     m60 <- lift (int_true_div (datetime.minute dt_utc) 60) ;;
     h <- lift (float_of_int (datetime.hour dt_utc)) ;;
     s3600 <- lift (int_true_div (datetime.second dt_utc) 3600) ;;
     let hour := fadd (fadd h m60) s3600 in
     jd_ut <- call (CallJulday (datetime.year dt_utc) (datetime.month dt_utc)
                               (datetime.day dt_utc) hour)
                   (julday X (datetime.year dt_utc) (datetime.month dt_utc)
                           (datetime.day dt_utc) hour) ;;
     let flags := Z.lor swe.FLG_SWIEPH swe.FLG_SIDEREAL in
     let hsys := "P" in
     cfg <- settings ;;
     '(cusps, ascmc) <- call (CallHouses jd_ut (NatalReq.lat req)
                                         (NatalReq.lon req) hsys)
                             (houses X cfg jd_ut (NatalReq.lat req)
                                     (NatalReq.lon req) hsys) ;;
     a0 <- lift (getitem ascmc 0) ;;
     asc_trop <- lift (float_rem a0 (of_Z 360)) ;;
     ay <- call (CallGetAyanamsaUt jd_ut) (get_ayanamsa_ut X cfg jd_ut) ;;
     asc_lon <- lift (float_rem (fsub asc_trop ay) (of_Z 360)) ;;
     '(asc_sign, asc_deg) <- lift (lon_to_sign_deg asc_lon) ;;
     planets_out <- planet_loop jd_ut flags PLANETS [] ;;
     rahu_lon <- lift (next_lon "Rahu" planets_out) ;;
     ketu_lon <- lift (float_rem (fadd rahu_lon (of_Z 180)) (of_Z 360)) ;;
     '(ksign, kdeg) <- lift (lon_to_sign_deg ketu_lon) ;;
     let planets_out :=
       (planets_out ++
        [{| PlanetOut.name := "Ketu"; PlanetOut.lon := ketu_lon;
            PlanetOut.sign := ksign; PlanetOut.degree := kdeg |}])%list in
     ret {| NatalResp.birth_utc := isoformat X dt_utc;
            NatalResp.ascendant :=
              {| PlanetOut.name := "Ascendant"; PlanetOut.lon := asc_lon;
                 PlanetOut.sign := asc_sign; PlanetOut.degree := asc_deg |};
            NatalResp.planets := sorted_by_name planets_out |})%M.

(** <<
    def compute_natal(req: NatalReq):
        try:
            ...
        except HTTPException:
            raise
        except Exception as e:
            print("NATAL_ERROR:", repr(e))
            traceback.print_exc()
            raise HTTPException(500, "Internal error computing chart")
    >> *)
Definition compute_natal (req : NatalReq.t) : M NatalResp.t :=
  try_except (natal_body req)
    (fun e =>
       (emit (Print "NATAL_ERROR:" (repr X e)) ;;;
        emit (PrintExc e) ;;;
        raise (HTTPException 500 "Internal error computing chart"))%M).

End Handlers.

(* ================================================================== *)
(** ** A test double of the libraries *)
(* ================================================================== *)

(** Concrete libraries to run the handlers on: the clock reads noon of
    2000-01-01 UTC, only the zone "UTC" is known, the house routine answers
    the ascendant [asc], the ayanamsha is [ay], the true node is at [rahu]
    and body number [pid] is at [40 * pid + 10] degrees. *)
Definition noon_2000 : datetime.t :=
  {| datetime.year := 2000; datetime.month := 1; datetime.day := 1;
     datetime.hour := 12; datetime.minute := 0; datetime.second := 0;
     datetime.microsecond := 0 |}.

Definition delhi : Location.t :=
  {| Location.latitude := Fin (114 * 2 ^ 1072);
     Location.longitude := Fin (309 * 2 ^ 1072);
     Location.address := "Delhi, India" |}.

Definition double (asc ay rahu : float) : externals :=
  {| tzinfo := unit;
     fromisoformat := fun _ => Returns noon_2000;
     gettz := fun tzid => if String.eqb tzid "UTC" then Some tt else None;
     astimezone_utc := fun dt _ => Returns dt;
     isoformat := fun _ => "2000-01-01T12:00:00+00:00";
     repr := fun _ => "";
     julday := fun _ _ _ _ => Returns (of_Z 2451545);
     houses := fun _ _ _ _ _ => Returns ([], [asc]);
     get_ayanamsa_ut := fun _ _ => Returns ay;
     calc_ut := fun _ _ pid _ =>
       Returns [if Z.eqb pid swe.TRUE_NODE then rahu else of_Z (40 * pid + 10);
                of_Z 0];
     geocode := fun place _ =>
       if String.eqb place "" then Returns None else Returns (Some delhi) |}.

Definition request_2000 (tzid ayanamsha : string) : NatalReq.t :=
  {| NatalReq.date := "2000-01-01"; NatalReq.time := "12:00:00";
     NatalReq.tzid := tzid; NatalReq.lat := of_Z 0; NatalReq.lon := of_Z 0;
     NatalReq.ayanamsha := ayanamsha |}.

(** 0.1, 24.0 and the float just above 24.0. *)
Definition f_0_1 : float := Fin (3602879701896397 * 2 ^ 1019).
Definition f_24 : float := of_Z 24.
Definition f_24_next : float := Fin (24 * U + 2 ^ 1026).

(* ================================================================== *)
(** ** Vocabulary of the specifications *)
(* ================================================================== *)

(** The process state once one more event has been recorded. *)
Definition after (w : world) (ev : event) : world :=
  {| swe_state := swe_state w; trace := trace w ++ [ev] |}.


(** [p] is the entry the planet loop builds for [item]: the longitude the
    ephemeris answers, reduced, with its sign and degree. *)
Definition computed (X : externals) (cfg : swe.config) (jd : float) (flags : Z)
    (item : string * option Z) (p : PlanetOut.t) : Prop :=
  PlanetOut.name p = fst item /\
  exists pid xs x y,
    snd item = Some pid /\
    calc_ut X cfg jd pid flags = Returns xs /\
    firstn 2 xs = [x; y] /\
    float_rem x (of_Z 360) = Ok (PlanetOut.lon p) /\
    lon_to_sign_deg (PlanetOut.lon p) = Ok (PlanetOut.sign p, PlanetOut.degree p).

Definition not_ketu (item : string * option Z) : bool :=
  negb (String.eqb (fst item) "Ketu").


(** The order of [sorted]: by name, weakly and strictly. *)
Definition name_le (p q : PlanetOut.t) : Prop :=
  String.leb (PlanetOut.name p) (PlanetOut.name q) = true.

Definition name_lt (p q : PlanetOut.t) : Prop :=
  String.ltb (PlanetOut.name p) (PlanetOut.name q) = true.

(** The sign and degree of an entry are those of its longitude. *)
Definition entry_ok (p : PlanetOut.t) : Prop :=
  lon_to_sign_deg (PlanetOut.lon p) = Ok (PlanetOut.sign p, PlanetOut.degree p).

(** [p] carries the longitude the ephemeris answers for body [pid],
    reduced modulo 360. *)
Definition from_ephemeris (X : externals) (cfg : swe.config) (jd : float)
    (pid : Z) (p : PlanetOut.t) : Prop :=
  exists xs x y,
    calc_ut X cfg jd pid (Z.lor swe.FLG_SWIEPH swe.FLG_SIDEREAL) = Returns xs /\
    firstn 2 xs = [x; y] /\
    float_rem x (of_Z 360) = Ok (PlanetOut.lon p).

(** The run of the natal handler on the test double with every body,
    ascendant and ayanamsha at 24.0, evaluated once. *)
Definition sample_run : result NatalResp.t * world :=
  Eval vm_compute in
    compute_natal (double f_24 f_24 f_24) (request_2000 "UTC" "lahiri")
                  (startup None).

(** The invariant of an entry: its longitude is a binary64 value between 0
    and 360 (both included), its degree lies in [0,30), its sign is the
    sign number [i], and the longitude, reduced modulo 360, is exactly
    [30 * i + degree]. *)
Definition entry_invariant (p : PlanetOut.t) : Prop :=
  exists L i D,
    PlanetOut.lon p = Fin L /\ is_b64 L = true /\ 0 <= L <= 360 * U /\
    0 <= i < 12 /\ 0 <= D < 30 * U /\
    PlanetOut.sign p = nth (Z.to_nat i) SIGNS "" /\
    PlanetOut.degree p = Fin D /\
    L mod (360 * U) = 30 * U * i + D.

(** An exception other than FastAPI's [HTTPException]. *)
Definition not_http (e : exn) : Prop :=
  forall c d, e <> HTTPException c d.

(** A computation that never raises an [HTTPException]. *)
Definition quiet {A : Type} (m : M A) : Prop :=
  forall w e w', m w = (Raise e, w') -> not_http e.

Definition pure_quiet {A : Type} (r : result A) : Prop :=
  forall e, r = Raise e -> not_http e.



(* ================================================================== *)
(** ** Facts about binary64 rounding *)
(* ================================================================== *)

Module B64Facts.

Lemma U_eq : U = 2 ^ 1074.
Proof. reflexivity. Qed.

Lemma OVF_eq : OVF = 2 ^ 2098.
Proof. reflexivity. Qed.

(** From here on [U] and [OVF] are handled through these equations, and
    evaluated only by [vm_compute]. *)
#[global] Opaque U OVF.

Lemma U_pos : 0 < U.
Proof. rewrite U_eq. apply Z.pow_pos_nonneg; lia. Qed.

Lemma rhe_exact (c d : Z) : 0 < d -> rhe (c * d) d = c.
Proof.
  intros Hd. unfold rhe.
  rewrite Z.mod_mul by lia. rewrite Z.div_mul by lia.
  destruct (Z.ltb_spec (2 * 0) d); [reflexivity | lia].
Qed.

Lemma ulp_exp_nonneg (f : Z) : 0 <= ulp_exp f.
Proof. unfold ulp_exp. lia. Qed.

Lemma ulp_exp_mono (a b : Z) : a <= b -> ulp_exp a <= ulp_exp b.
Proof.
  intros H. unfold ulp_exp.
  pose proof (Z.log2_le_mono a b H). lia.
Qed.

Lemma is_b64_iff (n : Z) :
  is_b64 n = true <-> Z.abs n < OVF /\ (2 ^ ulp_exp (Z.abs n) | n).
Proof.
  unfold is_b64. rewrite andb_true_iff, Z.ltb_lt, Z.eqb_eq.
  pose proof (ulp_exp_nonneg (Z.abs n)).
  assert (0 < 2 ^ ulp_exp (Z.abs n)) by (apply Z.pow_pos_nonneg; lia).
  rewrite Z.mod_divide by lia. tauto.
Qed.


Lemma pow2_divide (a b : Z) : 0 <= a <= b -> (2 ^ a | 2 ^ b).
Proof.
  intros H. exists (2 ^ (b - a)).
  rewrite <- Z.pow_add_r by lia. f_equal. lia.
Qed.

Lemma is_b64_0 : is_b64 0 = true.
Proof. reflexivity. Qed.

Lemma is_b64_smaller (a r : Z) :
  is_b64 a = true -> Z.abs r <= Z.abs a -> (2 ^ ulp_exp (Z.abs a) | r) ->
  is_b64 r = true.
Proof.
  rewrite !is_b64_iff. intros [Ha _] Hle Hdiv. split; [lia|].
  apply Z.divide_trans with (2 ^ ulp_exp (Z.abs a)); [|exact Hdiv].
  apply pow2_divide. split; [apply ulp_exp_nonneg | now apply ulp_exp_mono].
Qed.

Lemma is_b64_mul_pow2 (m j : Z) :
  Z.abs m < 2 ^ 53 -> 0 <= j -> Z.abs (m * 2 ^ j) < OVF ->
  is_b64 (m * 2 ^ j) = true.
Proof.
  intros Hm Hj Hovf. apply is_b64_iff. split; [exact Hovf|].
  assert (Hp : 0 < 2 ^ j) by (apply Z.pow_pos_nonneg; lia).
  destruct (Z.eq_dec m 0) as [->|Hm0].
  { rewrite Z.mul_0_l. apply Z.divide_0_r. }
  apply Z.divide_trans with (2 ^ j); [|apply Z.divide_factor_r].
  apply pow2_divide. split; [apply ulp_exp_nonneg|].
  rewrite Z.abs_mul, (Z.abs_eq (2 ^ j)) by lia.
  unfold ulp_exp. rewrite Z.log2_mul_pow2 by lia.
  assert (Z.log2 (Z.abs m) < 53) by (apply Z.log2_lt_pow2; lia).
  lia.
Qed.

Lemma is_b64_opp (n : Z) : is_b64 (- n) = is_b64 n.
Proof.
  unfold is_b64. rewrite Z.abs_opp. f_equal.
  pose proof (ulp_exp_nonneg (Z.abs n)).
  assert (0 < 2 ^ ulp_exp (Z.abs n)) by (apply Z.pow_pos_nonneg; lia).
  destruct (Z.eqb_spec (n mod 2 ^ ulp_exp (Z.abs n)) 0) as [E|E];
  destruct (Z.eqb_spec (- n mod 2 ^ ulp_exp (Z.abs n)) 0) as [E'|E'];
    try reflexivity; exfalso.
  - apply E'. apply Z.mod_divide in E; [|lia]. apply Z.mod_divide; [lia|].
    now apply Z.divide_opp_r.
  - apply E. apply Z.mod_divide in E'; [|lia]. apply Z.mod_divide; [lia|].
    apply Z.divide_opp_r in E'. now rewrite Z.opp_involutive in E'.
Qed.

Lemma rnd_pos_exact (a q : Z) :
  0 <= a -> 0 < q -> (2 ^ ulp_exp a | a) -> rnd_pos (a * q) q = a.
Proof.
  intros Ha Hq [c Hc]. unfold rnd_pos.
  rewrite Z.div_mul by lia.
  pose proof (ulp_exp_nonneg a).
  remember (ulp_exp a) as k eqn:Ek.
  assert (0 < 2 ^ k) by (apply Z.pow_pos_nonneg; lia).
  replace (a * q) with (c * (q * 2 ^ k)) by (rewrite Hc; ring).
  rewrite rhe_exact by lia. lia.
Qed.

Lemma round_q_exact (n q : Z) :
  is_b64 n = true -> q <> 0 -> round_q (n * q) q = Fin n.
Proof.
  intros Hn Hq. apply is_b64_iff in Hn. destruct Hn as [Hovf Hdiv].
  unfold round_q. cbv zeta.
  rewrite (Z.abs_mul n q), rnd_pos_exact; try lia.
  - replace (Z.sgn (n * q) * Z.sgn q * Z.abs n) with n.
    + destruct (Z.leb_spec OVF (Z.abs n)); [lia | reflexivity].
    + rewrite Z.sgn_mul.
      replace (Z.sgn n * Z.sgn q * Z.sgn q) with (Z.sgn n)
        by (destruct q; simpl; lia).
      symmetry. rewrite Z.mul_comm. apply Z.abs_sgn.
  - now apply Z.divide_abs_r.
Qed.

Lemma round_exact (n : Z) : is_b64 n = true -> round n = Fin n.
Proof.
  intros Hn. unfold round.
  rewrite <- (Z.mul_1_r n) at 1. now apply round_q_exact.
Qed.


Lemma is_b64_of_int (z : Z) : Z.abs z < 2 ^ 53 -> is_b64 (z * U) = true.
Proof.
  intros Hz. rewrite U_eq. apply is_b64_mul_pow2; [exact Hz | lia |].
  rewrite OVF_eq, Z.abs_mul.
  assert (H1 : 0 < 2 ^ 1074) by (apply Z.pow_pos_nonneg; lia).
  rewrite (Z.abs_eq (2 ^ 1074)) by lia.
  replace (2 ^ 2098) with (2 ^ 1024 * 2 ^ 1074)
    by (rewrite <- Z.pow_add_r by lia; reflexivity).
  apply Z.mul_lt_mono_pos_r; [exact H1|].
  apply Z.lt_trans with (2 ^ 53); [exact Hz|].
  apply Z.pow_lt_mono_r; lia.
Qed.

Lemma fsub_exact (a b : Z) :
  is_b64 (a - b) = true -> fsub (Fin a) (Fin b) = Fin (a - b).
Proof.
  intros H. unfold fsub, fneg, fadd.
  replace (a + - b) with (a - b) by ring. now apply round_exact.
Qed.

Lemma fadd_exact (a b : Z) :
  is_b64 (a + b) = true -> fadd (Fin a) (Fin b) = Fin (a + b).
Proof. intros H. unfold fadd. now apply round_exact. Qed.

Lemma fdiv_exact (n b : Z) :
  is_b64 (n * U) = true -> b <> 0 -> fdiv (Fin (n * b)) (Fin b) = Fin (n * U).
Proof.
  intros Hn Hb. unfold fdiv.
  destruct (Z.eqb_spec b 0) as [E|_]; [contradiction|].
  replace (n * b * U) with (n * U * b) by ring.
  now apply round_q_exact.
Qed.

End B64Facts.

Module PyFacts.
Import B64Facts.

Lemma float_rem_small (a b : Z) :
  0 <= a < b -> float_rem (Fin a) (Fin b) = Ok (Fin a).
Proof.
  intros H. unfold float_rem, nonzero, feq, fmod, flt.
  destruct (Z.eqb_spec b 0) as [E|_]; [lia|].
  rewrite Z.rem_small by lia.
  destruct (Z.eqb_spec a 0) as [->|_]; [reflexivity|]. cbn [negb].
  destruct (Z.ltb_spec b 0); [lia|].
  destruct (Z.ltb_spec a 0); [lia|]. reflexivity.
Qed.

Lemma float_rem_self (b : Z) :
  b <> 0 -> float_rem (Fin b) (Fin b) = Ok (Fin 0).
Proof.
  intros H. unfold float_rem, nonzero, feq, fmod.
  destruct (Z.eqb_spec b 0) as [E|_]; [lia|].
  rewrite Z.rem_same by lia. reflexivity.
Qed.

Lemma float_of_int_exact (z : Z) :
  Z.abs z < 2 ^ 53 -> float_of_int z = Ok (of_Z z).
Proof.
  intros H. unfold float_of_int, of_Z.
  now rewrite round_exact by now apply is_b64_of_int.
Qed.

Lemma getitem_nth {A : Type} (l : list A) (i : Z) (d : A) :
  0 <= i < Z.of_nat (List.length l) ->
  getitem l i = Ok (nth (Z.to_nat i) l d).
Proof.
  intros H. unfold getitem.
  destruct (Z.ltb_spec i 0); [lia|].
  destruct (Z.ltb_spec i 0); [lia|].
  destruct (Z.leb_spec (Z.of_nat (List.length l)) i); [lia|]. cbn [orb].
  destruct (nth_error l (Z.to_nat i)) eqn:E.
  - f_equal. symmetry. now apply nth_error_nth.
  - apply nth_error_None in E. lia.
Qed.

(** Floor division of a non-negative float by a positive one, when the
    quotient is a small integer: every intermediate result is exact. *)
Lemma float_floor_div_exact (a b : Z) :
  0 <= a -> 0 < b -> is_b64 (b * (a / b)) = true -> a / b < 2 ^ 53 ->
  float_floor_div (Fin a) (Fin b) = Ok (Fin (a / b * U)).
Proof.
  intros Ha Hb Hrep Hk.
  pose proof U_pos as HU.
  assert (Hk0 : 0 <= a / b) by (apply Z.div_pos; lia).
  assert (HkU : is_b64 (a / b * U) = true)
    by (apply is_b64_of_int; lia).
  unfold float_floor_div. unfold feq at 1. unfold fmod.
  destruct (Z.eqb_spec b 0) as [E|_]; [lia|].
  rewrite Z.rem_mod_nonneg by lia.
  pose proof (Z.mod_pos_bound a b Hb) as Hr.
  assert (Es : a - a mod b = a / b * b)
    by (rewrite (Z.div_mod a b) at 1 by lia; ring).
  rewrite fsub_exact by (rewrite Es, Z.mul_comm; exact Hrep).
  rewrite Es, fdiv_exact by (assumption || lia).
  replace (nonzero (Fin (a mod b)) &&
           xorb (flt (Fin b) (Fin 0)) (flt (Fin (a mod b)) (Fin 0)))
    with false.
  2:{ unfold flt. destruct (Z.ltb_spec b 0); [lia|].
      destruct (Z.ltb_spec (a mod b) 0); [lia|].
      now rewrite andb_false_r. }
  unfold nonzero, feq, ffloor.
  rewrite Z.div_mul by lia.
  destruct (Z.eqb_spec (a / b * U) 0) as [E|_]; cbn [negb].
  - now rewrite E.
  - rewrite fsub_exact by (rewrite Z.sub_diag; apply is_b64_0).
    rewrite Z.sub_diag. unfold flt.
    destruct (Z.ltb_spec (U / 2) 0) as [Hlt|_]; [|reflexivity].
    exfalso. assert (0 <= U / 2) by (apply Z.div_pos; lia). lia.
Qed.


Lemma int_of_float_of_Z (k : Z) : int_of_float (Fin (k * U)) = Ok k.
Proof.
  unfold int_of_float. pose proof U_pos. now rewrite Z.quot_mul by lia.
Qed.

End PyFacts.

Module SignDeg.
Import B64Facts PyFacts.
Local Open Scope string_scope.

(** The unit in the last place of a longitude below 512 is at most
    [2^-44], so the grid of such a float divides 1.0. *)
Lemma ulp_divides_U (L : Z) :
  0 <= L -> L < 512 * U -> (2 ^ ulp_exp (Z.abs L) | U).
Proof.
  intros H0 H1. rewrite Z.abs_eq by lia. rewrite U_eq.
  apply pow2_divide. split; [apply ulp_exp_nonneg|].
  unfold ulp_exp.
  destruct (Z.eq_dec L 0) as [->|Hn]; [cbn; lia|].
  assert (Z.log2 L < 1083); [|lia].
  apply Z.log2_lt_pow2; [lia|].
  replace (2 ^ 1083) with (512 * U); [exact H1|].
  rewrite U_eq. change 512 with (2 ^ 9).
  rewrite <- Z.pow_add_r by lia. reflexivity.
Qed.

Lemma lon_to_sign_deg_in_range (L : Z) :
  is_b64 L = true -> 0 <= L < 360 * U ->
  lon_to_sign_deg (Fin L) =
  Ok (nth (Z.to_nat (L / (30 * U))) SIGNS "", Fin (L mod (30 * U))).
Proof.
  intros Hb HL. pose proof U_pos as HU.
  set (k := L / (30 * U)).
  assert (Hk : 0 <= k < 12).
  { split; [apply Z.div_pos; lia|].
    apply Z.div_lt_upper_bound; lia. }
  assert (Hmod : L mod (30 * U) = L - k * 30 * U).
  { unfold k. rewrite Z.mod_eq by lia. ring. }
  assert (Hr : 0 <= L mod (30 * U) < 30 * U) by (apply Z.mod_pos_bound; lia).
  assert (Hdeg : is_b64 (L - k * 30 * U) = true).
  { apply is_b64_smaller with (a := L); [exact Hb | lia |].
    apply is_b64_iff in Hb. destruct Hb as [_ Hd].
    apply Z.divide_sub_r; [exact Hd|].
    apply Z.divide_mul_r. apply ulp_divides_U; lia. }
  unfold lon_to_sign_deg, of_Z.
  rewrite float_rem_small by lia. cbn [rbind].
  rewrite float_of_int_exact by (cbn; lia). unfold of_Z. cbn [rbind].
  rewrite float_floor_div_exact; try lia; fold k.
  - cbn [rbind]. rewrite int_of_float_of_Z. cbn [rbind].
    rewrite float_of_int_exact by lia. unfold of_Z. cbn [rbind].
    rewrite fsub_exact by exact Hdeg.
    rewrite (getitem_nth SIGNS k "") by (cbn; lia). cbn [rbind].
    now rewrite Hmod.
  - replace (30 * U * k) with (30 * k * U) by ring.
    apply is_b64_of_int. lia.
Qed.

End SignDeg.

Module Rounding.
Import B64Facts.
Local Open Scope Z_scope.

Lemma rhe_bounds (a d : Z) :
  0 <= a -> 0 < d -> a / d <= rhe a d <= a / d + 1.
Proof.
  intros Ha Hd. unfold rhe.
  destruct (2 * (a mod d) <? d); [lia|].
  destruct (d <? 2 * (a mod d)); [lia|].
  destruct (Z.even (a / d)); lia.
Qed.

(** The significand of a magnitude, cut at its unit in the last place,
    has at most 53 bits. *)
Lemma significand_bound (a : Z) : 0 <= a -> a / 2 ^ ulp_exp a < 2 ^ 53.
Proof.
  intros Ha. pose proof (ulp_exp_nonneg a) as Hk.
  assert (Hd : 0 < 2 ^ ulp_exp a) by (apply Z.pow_pos_nonneg; lia).
  apply Z.div_lt_upper_bound; [exact Hd|].
  rewrite <- Z.pow_add_r by lia.
  destruct (Z.eq_dec a 0) as [->|Hn].
  { apply Z.pow_pos_nonneg; lia. }
  destruct (Z.log2_spec a) as [_ Hlt]; [lia|].
  eapply Z.lt_le_trans; [exact Hlt|].
  apply Z.pow_le_mono_r; [lia|]. unfold ulp_exp. lia.
Qed.

Lemma is_b64_round_pos (a : Z) :
  0 <= a -> rhe a (2 ^ ulp_exp a) * 2 ^ ulp_exp a < OVF ->
  is_b64 (rhe a (2 ^ ulp_exp a) * 2 ^ ulp_exp a) = true.
Proof.
  intros Ha Hovf. pose proof (ulp_exp_nonneg a) as Hk.
  assert (Hd : 0 < 2 ^ ulp_exp a) by (apply Z.pow_pos_nonneg; lia).
  pose proof (rhe_bounds a _ Ha Hd) as Hm.
  pose proof (significand_bound a Ha) as Hs.
  assert (H0 : 0 <= a / 2 ^ ulp_exp a) by (apply Z.div_pos; lia).
  set (m := rhe a (2 ^ ulp_exp a)) in *. clearbody m.
  assert (Hmd : 0 <= m * 2 ^ ulp_exp a) by (apply Z.mul_nonneg_nonneg; lia).
  destruct (Z.eq_dec m (2 ^ 53)) as [E|E].
  - replace (m * 2 ^ ulp_exp a) with (2 ^ 52 * 2 ^ (ulp_exp a + 1)).
    + apply is_b64_mul_pow2; [| lia |].
      * rewrite Z.abs_eq by (apply Z.pow_nonneg; lia).
        apply Z.pow_lt_mono_r; lia.
      * replace (2 ^ 52 * 2 ^ (ulp_exp a + 1)) with (m * 2 ^ ulp_exp a).
        -- rewrite Z.abs_eq by lia. exact Hovf.
        -- rewrite E, <- !Z.pow_add_r by lia. f_equal. lia.
    + rewrite E, <- !Z.pow_add_r by lia. f_equal. lia.
  - apply is_b64_mul_pow2; [rewrite Z.abs_eq by lia; lia | lia |].
    rewrite Z.abs_eq by lia. exact Hovf.
Qed.

(** Rounding a non-negative value below a binary64 value [g] gives a
    binary64 value, still between 0 and [g]. *)
Lemma round_below (a g : Z) :
  0 <= a <= g -> is_b64 g = true ->
  exists n, round a = Fin n /\ 0 <= n <= g /\ is_b64 n = true.
Proof.
  intros Ha Hg. pose proof (ulp_exp_nonneg a) as Hk.
  assert (Hd : 0 < 2 ^ ulp_exp a) by (apply Z.pow_pos_nonneg; lia).
  pose proof (rhe_bounds a _ (proj1 Ha) Hd) as Hm.
  assert (H0 : 0 <= a / 2 ^ ulp_exp a) by (apply Z.div_pos; lia).
  apply is_b64_iff in Hg. destruct Hg as [Hgo Hgd].
  rewrite Z.abs_eq in Hgo, Hgd by lia.
  assert (Hdg : (2 ^ ulp_exp a | g)).
  { apply Z.divide_trans with (2 ^ ulp_exp g); [|exact Hgd].
    apply pow2_divide. split; [lia | apply ulp_exp_mono; lia]. }
  destruct Hdg as [c Hc].
  assert (Hle : rhe a (2 ^ ulp_exp a) <= c).
  { destruct (Z.eq_dec a g) as [E|E].
    - rewrite E at 1. rewrite Hc at 1. rewrite rhe_exact by lia. lia.
    - assert (a / 2 ^ ulp_exp a < c); [|lia].
      apply Z.div_lt_upper_bound; [lia|]. lia. }
  assert (Hz : a = 0 -> rhe a (2 ^ ulp_exp a) = 0).
  { intros ->. unfold rhe. rewrite Z.mod_0_l, Z.div_0_l by lia.
    destruct (Z.ltb_spec (2 * 0) (2 ^ ulp_exp 0)); [reflexivity | lia]. }
  remember (rhe a (2 ^ ulp_exp a)) as m eqn:Em.
  assert (Hn : 0 <= m * 2 ^ ulp_exp a <= g) by nia.
  exists (m * 2 ^ ulp_exp a).
  split; [|split; [exact Hn|]].
  - unfold round, round_q. cbv zeta.
    change (Z.abs 1) with 1. change (Z.sgn 1) with 1.
    rewrite (Z.abs_eq a) by lia. unfold rnd_pos.
    rewrite Z.div_1_r, Z.mul_1_l, <- Em.
    assert (Es : Z.sgn a * 1 * (m * 2 ^ ulp_exp a) = m * 2 ^ ulp_exp a).
    { destruct (Z.eq_dec a 0) as [Ea|Ea].
      - rewrite (Hz Ea). ring.
      - replace (Z.sgn a) with 1 by (symmetry; apply Z.sgn_pos; lia). ring. }
    rewrite Es.
    destruct (Z.leb_spec OVF (Z.abs (m * 2 ^ ulp_exp a))); [lia|].
    reflexivity.
  - rewrite Em. apply is_b64_round_pos; [lia|]. rewrite <- Em. lia.
Qed.

(** C's [fmod] maps binary64 operands to a binary64 remainder. *)
Lemma is_b64_rem (a b : Z) :
  is_b64 a = true -> is_b64 b = true -> b <> 0 -> is_b64 (Z.rem a b) = true.
Proof.
  intros Ha Hb Hb0.
  pose proof (Z.rem_bound_abs a b Hb0) as Hlt.
  assert (Hle : Z.abs (Z.rem a b) <= Z.abs a).
  { rewrite <- Z.rem_abs by exact Hb0.
    rewrite Z.rem_mod_nonneg by lia. apply Z.mod_le; lia. }
  apply is_b64_iff in Ha. apply is_b64_iff in Hb.
  destruct Ha as [Hao Had], Hb as [Hbo Hbd].
  apply is_b64_iff. split; [lia|].
  remember (ulp_exp (Z.abs (Z.rem a b))) as k eqn:Ek.
  assert (Hka : k <= ulp_exp (Z.abs a)) by (subst k; apply ulp_exp_mono; lia).
  assert (Hkb : k <= ulp_exp (Z.abs b)) by (subst k; apply ulp_exp_mono; lia).
  assert (Hk : 0 <= k) by (subst k; apply ulp_exp_nonneg).
  assert (Da : (2 ^ k | a)).
  { eapply Z.divide_trans; [|exact Had]. apply pow2_divide. lia. }
  assert (Db : (2 ^ k | b)).
  { eapply Z.divide_trans; [|exact Hbd]. apply pow2_divide. lia. }
  rewrite (Z.rem_eq a b Hb0). apply Z.divide_sub_r; [exact Da|].
  now apply Z.divide_mul_l.
Qed.

End Rounding.

(* ================================================================== *)
(** ** Running the handlers *)
(* ================================================================== *)

Module Run.

Lemma bind_ok {A B : Type} (m : M A) (k : A -> M B) w b w' :
  bind m k w = (Ok b, w') ->
  exists a w1, m w = (Ok a, w1) /\ k a w1 = (Ok b, w').
Proof.
  unfold bind. destruct (m w) as [[a|e] w1]; intros H.
  - now exists a, w1.
  - discriminate.
Qed.

Lemma bind_lift_ok {A B : Type} (r : result A) (k : A -> M B) w b w' :
  bind (lift r) k w = (Ok b, w') ->
  exists a, r = Ok a /\ k a w = (Ok b, w').
Proof.
  unfold bind, lift. destruct r as [a|e]; intros H.
  - now exists a.
  - discriminate.
Qed.

Lemma bind_call_ok {A B : Type} ev (r : answer A) (k : A -> M B) w b w' :
  bind (call ev r) k w = (Ok b, w') ->
  exists a, r = Returns a /\ k a (after w ev) = (Ok b, w').
Proof.
  unfold bind, call, emit, lift, after. cbn. destruct r as [a|msg]; cbn; intros H.
  - now exists a.
  - discriminate.
Qed.

Lemma call_ok {A : Type} ev (r : answer A) w a w' :
  call ev r w = (Ok a, w') -> r = Returns a /\ w' = after w ev.
Proof.
  unfold bind, call, emit, lift, after. cbn. destruct r as [a'|msg]; cbn; intros H.
  - now inversion H.
  - discriminate.
Qed.

Lemma bind_settings {B : Type} (k : swe.config -> M B) w :
  bind settings k w = k (swe_state w) w.
Proof. reflexivity. Qed.

Lemma rbind_ok {A B : Type} (r : result A) (k : A -> result B) b :
  rbind r k = Ok b -> exists a, r = Ok a /\ k a = Ok b.
Proof.
  destruct r as [a|e]; cbn; intros H; [now exists a | discriminate].
Qed.

Lemma try_except_ok {A : Type} (body : M A) h w (a : A) w' :
  (forall e w1 w2, h e w1 <> (Ok a, w2)) ->
  try_except body h w = (Ok a, w') -> body w = (Ok a, w').
Proof.
  intros Hh. unfold try_except.
  destruct (body w) as [[a'|e] w1]; [trivial|].
  destruct e; intros H; try discriminate; now apply Hh in H.
Qed.

Lemma unpack2_ok {A : Type} (t : list A) a b :
  unpack2 t = Ok (a, b) -> t = [a; b].
Proof.
  destruct t as [|a' [|b' [|c t]]]; cbn; intros H; try discriminate.
  now inversion H.
Qed.

Lemma planet_loop_ok X jd flags items : forall acc w out w',
  planet_loop X jd flags items acc w = (Ok out, w') ->
  swe_state w' = swe_state w /\
  exists new, out = (acc ++ new)%list /\
    Forall2 (computed X (swe_state w) jd flags) (filter not_ketu items) new.
Proof.
  induction items as [|[name pid] rest IH]; intros acc w out w' H.
  - cbn in H. inversion H; subst. split; [reflexivity|].
    exists []. split; [now rewrite app_nil_r | constructor].
  - cbn [planet_loop] in H. cbn [filter]. unfold not_ketu at 1. cbn [fst].
    destruct (String.eqb name "Ketu") eqn:En; cbn [negb].
    + now apply IH.
    + rewrite bind_settings in H.
      destruct pid as [pid|].
      2:{ unfold bind, raise in H. discriminate. }
      apply bind_call_ok in H. destruct H as (xs & Hxs & H).
      apply bind_lift_ok in H. destruct H as ([x y] & Hun & H).
      apply unpack2_ok in Hun.
      apply bind_lift_ok in H. destruct H as (lon & Hlon & H).
      apply bind_lift_ok in H. destruct H as ([sign deg] & Hsd & H).
      apply IH in H. cbn [after swe_state] in H.
      destruct H as (Hst & new & Hout & Hall).
      split; [exact Hst|].
      eexists (_ :: new). split.
      * rewrite Hout, <- app_assoc. reflexivity.
      * constructor; [|exact Hall].
        split; [reflexivity|]. exists pid, xs, x, y.
        cbn [snd PlanetOut.lon PlanetOut.sign PlanetOut.degree]. auto.
Qed.

(** What one run of the geocode handler does, by the provider's answer. *)
Lemma geocode_place_run (X : externals) (req : GeocodeReq.t) (w : world) :
  geocode_place X req w =
  (match geocode X (GeocodeReq.place req) 20 with
   | Returns (Some loc) =>
       Ok {| GeocodeResp.lat := Location.latitude loc;
             GeocodeResp.lon := Location.longitude loc;
             GeocodeResp.tzid := "UNKNOWN";
             GeocodeResp.normalized_place := Location.address loc |}
   | Returns None => Raise (HTTPException 404 "Place not found")
   | Fails msg => Raise (LibraryError msg)
   end,
   after w (CallGeocode (GeocodeReq.place req) 20)).
Proof.
  unfold geocode_place, call, bind, emit, lift, raise, ret, outcome, after.
  destruct (geocode X (GeocodeReq.place req) 20) as [[loc|]|msg]; reflexivity.
Qed.

End Run.

(* ================================================================== *)
(** ** The sort of the response *)
(* ================================================================== *)

Module SortFacts.

Lemma leb_trans (a b c : string) :
  String.leb a b = true -> String.leb b c = true -> String.leb a c = true.
Proof.
  unfold String.leb. intros Hab Hbc.
  destruct (String.compare a b) eqn:Eab; try discriminate;
  destruct (String.compare b c) eqn:Ebc; try discriminate.
  - apply String_as_OT.cmp_eq in Eab, Ebc. subst.
    pose proof (proj2 (String_as_OT.cmp_eq c c) eq_refl) as H.
    unfold String_as_OT.cmp in H. now rewrite H.
  - apply String_as_OT.cmp_eq in Eab. subst. now rewrite Ebc.
  - apply String_as_OT.cmp_eq in Ebc. subst. now rewrite Eab.
  - apply String_as_OT.cmp_lt in Eab, Ebc.
    pose proof (String_as_OT.lt_trans _ _ _ Eab Ebc) as H.
    apply String_as_OT.cmp_lt in H. unfold String_as_OT.cmp in H.
    now rewrite H.
Qed.

Lemma leb_false_leb (a b : string) :
  String.leb a b = false -> String.leb b a = true.
Proof.
  intros H. destruct (String.leb_total a b) as [E|E]; [congruence | exact E].
Qed.

Lemma leb_neq_ltb (a b : string) :
  String.leb a b = true -> a <> b -> String.ltb a b = true.
Proof.
  unfold String.leb, String.ltb. intros H Hne.
  destruct (String.compare a b) eqn:E; try discriminate; [|reflexivity].
  apply String_as_OT.cmp_eq in E. contradiction.
Qed.

Lemma insert_by_name_perm (p : PlanetOut.t) (l : list PlanetOut.t) :
  Permutation (insert_by_name p l) (p :: l).
Proof.
  induction l as [|q l IH]; cbn [insert_by_name]; [reflexivity|].
  destruct (String.leb (PlanetOut.name p) (PlanetOut.name q)); [reflexivity|].
  rewrite IH. apply perm_swap.
Qed.

Lemma sorted_by_name_perm (l : list PlanetOut.t) :
  Permutation (sorted_by_name l) l.
Proof.
  induction l as [|p l IH]; cbn; [constructor|].
  rewrite insert_by_name_perm. now constructor.
Qed.

Lemma insert_by_name_sorted (p : PlanetOut.t) (l : list PlanetOut.t) :
  StronglySorted name_le l -> StronglySorted name_le (insert_by_name p l).
Proof.
  induction 1 as [|q l Hs IH Hq]; cbn [insert_by_name].
  - constructor; constructor.
  - destruct (String.leb (PlanetOut.name p) (PlanetOut.name q)) eqn:E.
    + constructor; [now constructor|].
      constructor; [exact E|].
      eapply Forall_impl; [|exact Hq].
      intros r Hr. unfold name_le in *. eapply leb_trans; eassumption.
    + constructor; [exact IH|].
      eapply Permutation_Forall; [symmetry; apply insert_by_name_perm|].
      constructor; [|exact Hq].
      now apply leb_false_leb.
Qed.

Lemma sorted_by_name_sorted (l : list PlanetOut.t) :
  StronglySorted name_le (sorted_by_name l).
Proof.
  induction l as [|p l IH]; cbn; [constructor|].
  now apply insert_by_name_sorted.
Qed.

(** Two sorted arrangements of the same entries, whose names are pairwise
    different, are the same list. *)
Lemma sorted_unique (l1 : list PlanetOut.t) : forall l2,
  StronglySorted name_le l1 -> StronglySorted name_le l2 ->
  Permutation l1 l2 -> NoDup (map PlanetOut.name l1) -> l1 = l2.
Proof.
  induction l1 as [|a l1 IH]; intros l2 H1 H2 HP Hnd.
  - apply Permutation_nil in HP. now subst.
  - destruct l2 as [|b l2].
    { symmetry in HP. apply Permutation_nil in HP. discriminate. }
    apply StronglySorted_inv in H1. destruct H1 as [H1 Ha].
    apply StronglySorted_inv in H2. destruct H2 as [H2 Hb].
    inversion Hnd as [|? ? Hnin Hnd']; subst.
    assert (Eab : a = b).
    { assert (Hain : In a (b :: l2))
        by (eapply Permutation_in; [exact HP | now left]).
      assert (Hbin : In b (a :: l1))
        by (eapply Permutation_in; [symmetry; exact HP | now left]).
      destruct Hain as [->|Hain]; [reflexivity|].
      destruct Hbin as [->|Hbin]; [reflexivity|].
      exfalso. apply Hnin.
      rewrite Forall_forall in Ha, Hb.
      pose proof (Ha b Hbin) as Hab. pose proof (Hb a Hain) as Hba.
      unfold name_le in *.
      assert (En : PlanetOut.name a = PlanetOut.name b)
        by (apply String.leb_antisym; assumption).
      rewrite En. now apply in_map. }
    subst b. f_equal. apply IH; try assumption.
    now apply Permutation_cons_inv in HP.
Qed.

Lemma sorted_by_name_any_order (l l' : list PlanetOut.t) :
  NoDup (map PlanetOut.name l) -> Permutation l' l ->
  sorted_by_name l' = sorted_by_name l.
Proof.
  intros Hnd HP. apply sorted_unique.
  - apply sorted_by_name_sorted.
  - apply sorted_by_name_sorted.
  - rewrite !sorted_by_name_perm. exact HP.
  - eapply Permutation_NoDup; [|exact Hnd].
    apply Permutation_map. symmetry. rewrite sorted_by_name_perm. exact HP.
Qed.

End SortFacts.

(* ================================================================== *)
(** ** Successful runs of the natal handler *)
(* ================================================================== *)

Module Natal.
Import Run.

Lemma to_utc_state X d t tzid w dt w' :
  to_utc X d t tzid w = (Ok dt, w') -> swe_state w' = swe_state w.
Proof.
  unfold to_utc. cbv zeta. intros H.
  apply bind_call_ok in H. destruct H as (dt_local & _ & H).
  apply bind_call_ok in H. destruct H as ([tz|] & _ & H).
  - apply call_ok in H. destruct H as [_ ->]. reflexivity.
  - discriminate.
Qed.

Lemma compute_natal_ok_body X req w resp w' :
  compute_natal X req w = (Ok resp, w') ->
  natal_body X req w = (Ok resp, w').
Proof.
  apply try_except_ok. intros e w1 w2. unfold bind, emit, raise. discriminate.
Qed.

(** Everything a successful run of the natal handler has done. *)
Lemma compute_natal_ok X req w resp w' :
  compute_natal X req w = (Ok resp, w') ->
  exists dt_utc jd_ut cusps ascmc a0 asc_trop ay new rahu_lon ketu,
    lower (NatalReq.ayanamsha req) = "lahiri" /\
    (exists w1, to_utc X (NatalReq.date req) (NatalReq.time req)
                  (NatalReq.tzid req) w = (Ok dt_utc, w1)) /\
    NatalResp.birth_utc resp = isoformat X dt_utc /\
    houses X (swe_state w) jd_ut (NatalReq.lat req) (NatalReq.lon req) "P"
      = Returns (cusps, ascmc) /\
    getitem ascmc 0 = Ok a0 /\
    float_rem a0 (of_Z 360) = Ok asc_trop /\
    get_ayanamsa_ut X (swe_state w) jd_ut = Returns ay /\
    float_rem (fsub asc_trop ay) (of_Z 360)
      = Ok (PlanetOut.lon (NatalResp.ascendant resp)) /\
    lon_to_sign_deg (PlanetOut.lon (NatalResp.ascendant resp))
      = Ok (PlanetOut.sign (NatalResp.ascendant resp),
            PlanetOut.degree (NatalResp.ascendant resp)) /\
    PlanetOut.name (NatalResp.ascendant resp) = "Ascendant" /\
    Forall2 (computed X (swe_state w) jd_ut
               (Z.lor swe.FLG_SWIEPH swe.FLG_SIDEREAL))
            (filter not_ketu PLANETS) new /\
    next_lon "Rahu" new = Ok rahu_lon /\
    PlanetOut.name ketu = "Ketu" /\
    float_rem (fadd rahu_lon (of_Z 180)) (of_Z 360) = Ok (PlanetOut.lon ketu) /\
    lon_to_sign_deg (PlanetOut.lon ketu)
      = Ok (PlanetOut.sign ketu, PlanetOut.degree ketu) /\
    NatalResp.planets resp = sorted_by_name (new ++ [ketu]) /\
    swe_state w' = swe_state w.
Proof.
  intros H. apply compute_natal_ok_body in H.
  unfold natal_body in H.
  destruct (String.eqb_spec (lower (NatalReq.ayanamsha req)) "lahiri")
    as [Hay|_]; [|discriminate].
  cbn [negb] in H. cbv zeta in H.
  apply bind_ok in H. destruct H as (dt_utc & w1 & Hto & H).
  pose proof (to_utc_state _ _ _ _ _ _ _ Hto) as Hw1.
  apply bind_lift_ok in H. destruct H as (m60 & _ & H).
  apply bind_lift_ok in H. destruct H as (h & _ & H).
  apply bind_lift_ok in H. destruct H as (s3600 & _ & H).
  apply bind_call_ok in H. destruct H as (jd_ut & _ & H).
  rewrite bind_settings in H. cbn [after swe_state] in H.
  apply bind_call_ok in H. destruct H as ([cusps ascmc] & Hh & H).
  apply bind_lift_ok in H. destruct H as (a0 & Ha0 & H).
  apply bind_lift_ok in H. destruct H as (asc_trop & Htrop & H).
  apply bind_call_ok in H. destruct H as (ay & Hay' & H).
  apply bind_lift_ok in H. destruct H as (asc_lon & Hasc & H).
  apply bind_lift_ok in H. destruct H as ([asc_sign asc_deg] & Hsd & H).
  apply bind_ok in H. destruct H as (planets_out & w2 & Hloop & H).
  apply planet_loop_ok in Hloop. cbn [after swe_state] in Hloop.
  destruct Hloop as (Hw2 & new & -> & Hnew). rewrite app_nil_l in H.
  apply bind_lift_ok in H. destruct H as (rahu_lon & Hrahu & H).
  apply bind_lift_ok in H. destruct H as (ketu_lon & Hketu & H).
  apply bind_lift_ok in H. destruct H as ([ksign kdeg] & Hksd & H).
  unfold ret in H. inversion H; subst resp w'; clear H.
  rewrite Hw1 in *.
  exists dt_utc, jd_ut, cusps, ascmc, a0, asc_trop, ay, new, rahu_lon.
  eexists {| PlanetOut.name := "Ketu" |}.
  cbn [NatalResp.birth_utc NatalResp.ascendant NatalResp.planets
       PlanetOut.name PlanetOut.lon PlanetOut.sign PlanetOut.degree].
  repeat (split; [first [eassumption | reflexivity | eexists; eassumption]|]).
  congruence.
Qed.

End Natal.

Module Shape.
Import Run Natal.

Lemma Forall2_inv_l {A B : Type} (R : A -> B -> Prop) a l l' :
  Forall2 R (a :: l) l' ->
  exists b l'', l' = b :: l'' /\ R a b /\ Forall2 R l l''.
Proof. intros H. inversion H; subst. eauto. Qed.

Lemma computed_inv X cfg jd name pid p :
  computed X cfg jd (Z.lor swe.FLG_SWIEPH swe.FLG_SIDEREAL) (name, Some pid) p ->
  PlanetOut.name p = name /\ from_ephemeris X cfg jd pid p /\ entry_ok p.
Proof.
  intros (Hn & pid' & xs & x & y & Hp & Hc & Hf & Hr & Hsd).
  cbn [fst snd] in *. inversion Hp; subst pid'.
  split; [exact Hn|]. split; [|exact Hsd].
  exists xs, x, y. split; [exact Hc|]. split; [exact Hf | exact Hr].
Qed.

(** The nine entries of a successful response, in the order of the
    response and in the order of their computation. *)
Lemma natal_planets X req w resp w' :
  compute_natal X req w = (Ok resp, w') ->
  exists jd sun moon mars mercury jupiter venus saturn rahu ketu,
    NatalResp.planets resp =
      [jupiter; ketu; mars; mercury; moon; rahu; saturn; sun; venus] /\
    NatalResp.planets resp =
      sorted_by_name
        [sun; moon; mars; mercury; jupiter; venus; saturn; rahu; ketu] /\
    map PlanetOut.name
        [sun; moon; mars; mercury; jupiter; venus; saturn; rahu; ketu] =
      ["Sun"; "Moon"; "Mars"; "Mercury"; "Jupiter"; "Venus"; "Saturn";
       "Rahu"; "Ketu"] /\
    Forall entry_ok (NatalResp.planets resp) /\
    from_ephemeris X (swe_state w) jd swe.SUN sun /\
    from_ephemeris X (swe_state w) jd swe.MOON moon /\
    from_ephemeris X (swe_state w) jd swe.MARS mars /\
    from_ephemeris X (swe_state w) jd swe.MERCURY mercury /\
    from_ephemeris X (swe_state w) jd swe.JUPITER jupiter /\
    from_ephemeris X (swe_state w) jd swe.VENUS venus /\
    from_ephemeris X (swe_state w) jd swe.SATURN saturn /\
    from_ephemeris X (swe_state w) jd swe.TRUE_NODE rahu /\
    float_rem (fadd (PlanetOut.lon rahu) (of_Z 180)) (of_Z 360) =
      Ok (PlanetOut.lon ketu).
Proof.
  intros H. apply compute_natal_ok in H.
  destruct H as (dt_utc & jd & cusps & ascmc & a0 & asc_trop & ay & new &
                 rahu_lon & ketu & _ & _ & _ & _ & _ & _ & _ & _ & _ & _ &
                 Hnew & Hrahu & Hkn & Hkl & Hksd & Hpl & _).
  replace (filter not_ketu PLANETS)
    with [("Sun", Some swe.SUN); ("Moon", Some swe.MOON);
          ("Mars", Some swe.MARS); ("Mercury", Some swe.MERCURY);
          ("Jupiter", Some swe.JUPITER); ("Venus", Some swe.VENUS);
          ("Saturn", Some swe.SATURN); ("Rahu", Some swe.TRUE_NODE)]
    in Hnew by reflexivity.
  apply Forall2_inv_l in Hnew. destruct Hnew as (sun & l1 & -> & C1 & Hnew).
  apply Forall2_inv_l in Hnew. destruct Hnew as (moon & l2 & -> & C2 & Hnew).
  apply Forall2_inv_l in Hnew. destruct Hnew as (mars & l3 & -> & C3 & Hnew).
  apply Forall2_inv_l in Hnew. destruct Hnew as (mercury & l4 & -> & C4 & Hnew).
  apply Forall2_inv_l in Hnew. destruct Hnew as (jupiter & l5 & -> & C5 & Hnew).
  apply Forall2_inv_l in Hnew. destruct Hnew as (venus & l6 & -> & C6 & Hnew).
  apply Forall2_inv_l in Hnew. destruct Hnew as (saturn & l7 & -> & C7 & Hnew).
  apply Forall2_inv_l in Hnew. destruct Hnew as (rahu & l8 & -> & C8 & Hnew).
  inversion Hnew; subst; clear Hnew.
  apply computed_inv in C1, C2, C3, C4, C5, C6, C7, C8.
  destruct C1 as (N1 & E1 & K1), C2 as (N2 & E2 & K2), C3 as (N3 & E3 & K3),
           C4 as (N4 & E4 & K4), C5 as (N5 & E5 & K5), C6 as (N6 & E6 & K6),
           C7 as (N7 & E7 & K7), C8 as (N8 & E8 & K8).
  assert (Hr : rahu_lon = PlanetOut.lon rahu).
  { unfold next_lon in Hrahu. cbn [find] in Hrahu.
    rewrite N1, N2, N3, N4, N5, N6, N7, N8 in Hrahu.
    cbn in Hrahu. congruence. }
  subst rahu_lon.
  assert (Hsort : sorted_by_name
            [sun; moon; mars; mercury; jupiter; venus; saturn; rahu; ketu] =
            [jupiter; ketu; mars; mercury; moon; rahu; saturn; sun; venus]).
  { unfold sorted_by_name. cbn [fold_right insert_by_name].
    repeat (rewrite ?N1, ?N2, ?N3, ?N4, ?N5, ?N6, ?N7, ?N8, ?Hkn;
            match goal with
            | |- context [String.leb ?a ?b] =>
                let v := eval vm_compute in (String.leb a b) in
                change (String.leb a b) with v; cbv iota
            end; cbn [insert_by_name]).
    reflexivity. }
  cbn [app] in Hpl.
  exists jd, sun, moon, mars, mercury, jupiter, venus, saturn, rahu, ketu.
  split; [now rewrite Hpl|]. split; [exact Hpl|].
  split; [cbn [map]; now rewrite N1, N2, N3, N4, N5, N6, N7, N8, Hkn|].
  split; [rewrite Hpl, Hsort;
          repeat (apply Forall_cons; [assumption|]); apply Forall_nil|].
  repeat (split; [assumption|]). exact Hkl.
Qed.

End Shape.

(* ================================================================== *)
(** ** The names of the nine entries *)
(* ================================================================== *)

Module Names.
Import SortFacts.

Lemma computed_names_nodup :
  NoDup ["Sun"; "Moon"; "Mars"; "Mercury"; "Jupiter"; "Venus"; "Saturn";
         "Rahu"; "Ketu"].
Proof.
  repeat (constructor;
          [cbn [In]; intros H;
           repeat (destruct H as [H|H]; [discriminate H|]); exact H|]).
  constructor.
Qed.

Lemma sorted_strict (l : list PlanetOut.t) :
  StronglySorted name_le l -> NoDup (map PlanetOut.name l) ->
  StronglySorted name_lt l.
Proof.
  induction 1 as [|a l Hs IH Ha]; intros Hnd; [constructor|].
  cbn [map] in Hnd. inversion Hnd as [|? ? Hnin Hnd']; subst.
  constructor; [now apply IH|].
  rewrite Forall_forall in *. intros q Hq.
  apply leb_neq_ltb; [now apply Ha|].
  intros E. apply Hnin. rewrite E. now apply in_map.
Qed.

End Names.

(* ================================================================== *)
(** ** Reduction modulo 360 and the half turn *)
(* ================================================================== *)

Module Reduce.
Import B64Facts PyFacts SignDeg Rounding Run Natal Shape.
Local Open Scope Z_scope.

Lemma is_b64_360 : is_b64 (360 * U) = true.
Proof. vm_compute. reflexivity. Qed.

(** What [x % 360.0] can be for a binary64 [x]: NaN, or a binary64 value
    between 0 and 360, both included. *)
Lemma float_rem_360 (x y : float) :
  wf x = true -> float_rem x (of_Z 360) = Ok y ->
  y = NaN \/ exists R, y = Fin R /\ is_b64 R = true /\ 0 <= R <= 360 * U.
Proof.
  intros Hx H. pose proof U_pos as HU.
  unfold float_rem, of_Z in H. unfold feq at 1 in H.
  destruct (Z.eqb_spec (360 * U) 0) as [E|_]; [lia|].
  destruct x as [| s | a]; unfold fmod in H.
  - left. unfold nonzero, feq, flt in H. cbn [negb] in H.
    destruct (Z.ltb (360 * U) 0); cbn [xorb fadd] in H; congruence.
  - left. unfold nonzero, feq, flt in H. cbn [negb] in H.
    destruct (Z.ltb (360 * U) 0); cbn [xorb fadd] in H; congruence.
  - destruct (Z.eqb_spec (360 * U) 0) as [E|_]; [lia|].
    right. cbn [wf] in Hx.
    pose proof (is_b64_rem a (360 * U) Hx is_b64_360 ltac:(lia)) as Hr.
    pose proof (Z.rem_bound_abs a (360 * U) ltac:(lia)) as Hb.
    unfold nonzero, feq, flt in H.
    destruct (Z.eqb_spec (Z.rem a (360 * U)) 0) as [E0|E0]; cbn [negb] in H.
    + exists 0. inversion H. split; [reflexivity|]. split; [reflexivity | lia].
    + destruct (Z.ltb_spec (360 * U) 0); [lia|].
      destruct (Z.ltb_spec (Z.rem a (360 * U)) 0) as [Hneg|Hpos];
        cbn [xorb] in H.
      * unfold fadd in H.
        destruct (round_below (Z.rem a (360 * U) + 360 * U) (360 * U))
          as (n & Hn & Hrange & Hnb); [lia | exact is_b64_360 |].
        rewrite Hn in H. inversion H. exists n. auto.
      * inversion H. exists (Z.rem a (360 * U)).
        split; [reflexivity|]. split; [exact Hr | lia].
Qed.

Lemma lon_to_sign_deg_360 :
  lon_to_sign_deg (Fin (360 * U)) = Ok ("Aries", Fin 0).
Proof. vm_compute. reflexivity. Qed.

(** The mapping on the whole range of [x % 360.0]. *)
Lemma lon_to_sign_deg_closed (R : Z) :
  is_b64 R = true -> 0 <= R <= 360 * U ->
  lon_to_sign_deg (Fin R) =
  Ok (nth (Z.to_nat (R mod (360 * U) / (30 * U))) SIGNS "",
      Fin (R mod (30 * U))).
Proof.
  intros Hb HR. pose proof U_pos as HU.
  destruct (Z.eq_dec R (360 * U)) as [->|Hne].
  - rewrite lon_to_sign_deg_360, Z.mod_same by lia.
    rewrite Z.div_0_l by lia.
    replace (360 * U) with (12 * (30 * U)) by ring.
    rewrite Z.mod_mul by lia. reflexivity.
  - rewrite lon_to_sign_deg_in_range by (assumption || lia).
    now rewrite (Z.mod_small R (360 * U)) by lia.
Qed.

(** Half a turn is six signs. *)
Lemma shift_six (V R : Z) :
  0 < V ->
  ((R + 6 * V) mod (12 * V)) mod V = R mod V /\
  ((R + 6 * V) mod (12 * V)) / V = ((R mod (12 * V)) / V + 6) mod 12.
Proof.
  intros HV. split.
  - rewrite Z.mod_mod_divide by (exists 12; ring).
    now rewrite Z.mod_add by lia.
  - replace (12 * V) with (V * 12) by ring.
    rewrite !Z.rem_mul_r by lia.
    rewrite !(Z.mul_comm V), !Z.div_add by lia.
    rewrite !Z.mod_add by lia.
    rewrite !(Z.div_small (_ mod V)) by (apply Z.mod_pos_bound; lia).
    rewrite !Z.add_0_l. rewrite Z.add_mod_idemp_l by lia. reflexivity.
Qed.

Lemma float_rem_nonneg (a b : Z) :
  0 <= a -> 0 < b -> float_rem (Fin a) (Fin b) = Ok (Fin (a mod b)).
Proof.
  intros Ha Hb. unfold float_rem, nonzero, feq, fmod, flt.
  destruct (Z.eqb_spec b 0) as [E|_]; [lia|].
  rewrite Z.rem_mod_nonneg by lia.
  pose proof (Z.mod_pos_bound a b Hb) as Hr.
  destruct (Z.eqb_spec (a mod b) 0) as [->|_]; [reflexivity|]. cbn [negb].
  destruct (Z.ltb_spec b 0); [lia|].
  destruct (Z.ltb_spec (a mod b) 0); [lia|]. reflexivity.
Qed.

Lemma is_b64_540 : is_b64 (540 * U) = true.
Proof. vm_compute. reflexivity. Qed.

(** The entries named Rahu and Ketu of a successful response. *)
Lemma rahu_ketu X req w resp w' :
  compute_natal X req w = (Ok resp, w') ->
  exists jd rahu ketu,
    (forall p, In p (NatalResp.planets resp) ->
               PlanetOut.name p = "Rahu" -> p = rahu) /\
    (forall p, In p (NatalResp.planets resp) ->
               PlanetOut.name p = "Ketu" -> p = ketu) /\
    from_ephemeris X (swe_state w) jd swe.TRUE_NODE rahu /\
    entry_ok rahu /\ entry_ok ketu /\
    float_rem (fadd (PlanetOut.lon rahu) (of_Z 180)) (of_Z 360) =
      Ok (PlanetOut.lon ketu).
Proof.
  intros H. apply natal_planets in H.
  destruct H as (jd & sun & moon & mars & mercury & jupiter & venus & saturn &
                 rahu & ketu & Hpl & _ & Hnames & Hok & _ & _ & _ & _ & _ & _ &
                 _ & Hr & Hk).
  cbn [map] in Hnames.
  injection Hnames as N1 N2 N3 N4 N5 N6 N7 N8 N9.
  exists jd, rahu, ketu. rewrite Hpl in *.
  rewrite Forall_forall in Hok.
  split; [|split; [|split; [exact Hr | split; [|split; [|exact Hk]]]]].
  - intros p Hin Hn. cbn [In] in Hin.
    repeat (destruct Hin as [<-|Hin];
            [first [reflexivity | exfalso; congruence]|]).
    contradiction.
  - intros p Hin Hn. cbn [In] in Hin.
    repeat (destruct Hin as [<-|Hin];
            [first [reflexivity | exfalso; congruence]|]).
    contradiction.
  - apply Hok. cbn [In]. tauto.
  - apply Hok. cbn [In]. tauto.
Qed.

End Reduce.

(* ================================================================== *)
(** ** Closure, invariants and the outcomes of the handlers *)
(* ================================================================== *)

Module Closure.
Import B64Facts PyFacts SignDeg Rounding Reduce.
Local Open Scope Z_scope.

Lemma is_b64_round (n m : Z) : round n = Fin m -> is_b64 m = true.
Proof.
  unfold round, round_q. cbv zeta.
  change (Z.abs 1) with 1. change (Z.sgn 1) with 1.
  unfold rnd_pos. rewrite Z.div_1_r, Z.mul_1_l.
  pose proof (ulp_exp_nonneg (Z.abs n)) as Hk.
  assert (Hd : 0 < 2 ^ ulp_exp (Z.abs n)) by (apply Z.pow_pos_nonneg; lia).
  pose proof (rhe_bounds (Z.abs n) _ (Z.abs_nonneg n) Hd) as Hm.
  assert (H0 : 0 <= Z.abs n / 2 ^ ulp_exp (Z.abs n))
    by (apply Z.div_pos; lia).
  remember (rhe (Z.abs n) (2 ^ ulp_exp (Z.abs n)) * 2 ^ ulp_exp (Z.abs n))
    as v eqn:Ev.
  assert (Hv : 0 <= v) by (subst v; apply Z.mul_nonneg_nonneg; lia).
  destruct (Z.leb_spec OVF (Z.abs (Z.sgn n * 1 * v))) as [|Hlt];
    [discriminate|].
  intros H. injection H as <-.
  assert (Hovf : v < OVF).
  { destruct (Z.eq_dec n 0) as [->|Hn0].
    - cbn [Z.abs] in *.
      assert (E0 : rhe 0 (2 ^ ulp_exp 0) = 0).
      { unfold rhe. rewrite Z.mod_0_l, Z.div_0_l by lia.
        destruct (Z.ltb_spec (2 * 0) (2 ^ ulp_exp 0)); [reflexivity | lia]. }
      rewrite E0 in Ev.
      rewrite Ev, Z.mul_0_l, OVF_eq. apply Z.pow_pos_nonneg; lia.
    - rewrite !Z.abs_mul in Hlt. rewrite (Z.abs_eq v) in Hlt by lia.
      replace (Z.abs (Z.sgn n)) with 1 in Hlt by (destruct n; cbn; lia).
      cbn [Z.abs] in Hlt. lia. }
  assert (Hb : is_b64 v = true).
  { rewrite Ev. apply is_b64_round_pos; [lia|]. rewrite <- Ev. exact Hovf. }
  destruct n as [|p|p]; cbn [Z.sgn].
  - now rewrite !Z.mul_0_l.
  - now rewrite !Z.mul_1_l.
  - replace (-1 * 1 * v) with (- v) by ring. now rewrite is_b64_opp.
Qed.

(** Float addition and subtraction return binary64 values, whatever the
    operands. *)
Lemma wf_fadd (x y : float) : wf (fadd x y) = true.
Proof.
  destruct x as [|a|a], y as [|b|b]; cbn [fadd wf]; try reflexivity.
  - now destruct (Bool.eqb a b).
  - destruct (round (a + b)) eqn:E; cbn [wf]; try reflexivity.
    eapply is_b64_round; eassumption.
Qed.

Lemma wf_fsub (x y : float) : wf (fsub x y) = true.
Proof. apply wf_fadd. Qed.

Lemma lon_to_sign_deg_not_finite (x : float) :
  (forall n, x <> Fin n) ->
  lon_to_sign_deg x = Raise (ValueError "cannot convert float NaN to integer").
Proof.
  intros H. destruct x as [|[|]|n]; [| | |now destruct (H n)];
    vm_compute; reflexivity.
Qed.

(** On a non-negative binary64 argument the mapping is that of the
    argument reduced modulo 360. *)
Lemma lon_to_sign_deg_nonneg (L : Z) :
  is_b64 L = true -> 0 <= L ->
  lon_to_sign_deg (Fin L) = lon_to_sign_deg (Fin (L mod (360 * U))).
Proof.
  intros Hb HL. pose proof U_pos as HU.
  pose proof (Z.mod_pos_bound L (360 * U) ltac:(lia)) as Hr.
  unfold lon_to_sign_deg, of_Z.
  rewrite float_rem_nonneg by lia.
  now rewrite (float_rem_small (L mod (360 * U))) by lia.
Qed.

End Closure.

Module Invariant.
Import B64Facts PyFacts SignDeg Rounding Reduce Closure.
Local Open Scope Z_scope.

Lemma split_sign_degree (L : Z) :
  0 <= L ->
  0 <= L mod (360 * U) / (30 * U) < 12 /\
  0 <= L mod (30 * U) < 30 * U /\
  L mod (360 * U) = 30 * U * (L mod (360 * U) / (30 * U)) + L mod (30 * U).
Proof.
  intros HL. pose proof U_pos as HU.
  pose proof (Z.mod_pos_bound L (360 * U) ltac:(lia)) as Hr.
  split; [split; [apply Z.div_pos; lia | apply Z.div_lt_upper_bound; lia]|].
  split; [apply Z.mod_pos_bound; lia|].
  rewrite (Z.div_mod (L mod (360 * U)) (30 * U)) at 1 by lia.
  f_equal. apply Z.mod_mod_divide. exists 12. ring.
Qed.

Lemma entry_invariant_intro (x : float) (p : PlanetOut.t) :
  wf x = true -> float_rem x (of_Z 360) = Ok (PlanetOut.lon p) ->
  entry_ok p -> entry_invariant p.
Proof.
  intros Hx Hrem Hok.
  destruct (float_rem_360 x _ Hx Hrem) as [En|(L & EL & Hb & Hrange)].
  - unfold entry_ok in Hok. rewrite En in Hok.
    rewrite lon_to_sign_deg_not_finite in Hok by discriminate. discriminate.
  - unfold entry_ok in Hok.
    rewrite EL, lon_to_sign_deg_closed in Hok by assumption.
    destruct (split_sign_degree L (proj1 Hrange)) as (Hi & HD & Hsum).
    exists L, (L mod (360 * U) / (30 * U)), (L mod (30 * U)).
    repeat (split; [first [assumption | lia | congruence]|]). exact Hsum.
Qed.

End Invariant.

Module Finite.
Import B64Facts PyFacts SignDeg Rounding Reduce Closure.
Local Open Scope Z_scope.

(** [x % 360.0] of a finite binary64 [x] is a finite binary64 value
    between 0 and 360, both included. *)
Lemma float_rem_360_finite (a : Z) :
  is_b64 a = true ->
  exists R, float_rem (Fin a) (of_Z 360) = Ok (Fin R) /\
            is_b64 R = true /\ 0 <= R <= 360 * U.
Proof.
  intros Ha. pose proof U_pos as HU.
  unfold float_rem, of_Z, nonzero, feq, fmod, flt.
  destruct (Z.eqb_spec (360 * U) 0) as [E|_]; [lia|].
  pose proof (is_b64_rem a (360 * U) Ha is_b64_360 ltac:(lia)) as Hr.
  pose proof (Z.rem_bound_abs a (360 * U) ltac:(lia)) as Hb.
  destruct (Z.eqb_spec (Z.rem a (360 * U)) 0) as [E0|E0]; cbn [negb].
  - exists 0. split; [reflexivity|]. split; [reflexivity | lia].
  - destruct (Z.ltb_spec (360 * U) 0); [lia|].
    destruct (Z.ltb_spec (Z.rem a (360 * U)) 0) as [Hneg|Hpos]; cbn [xorb].
    + unfold fadd.
      destruct (round_below (Z.rem a (360 * U) + 360 * U) (360 * U))
        as (n & Hn & Hrange & Hnb); [lia | exact is_b64_360 |].
      rewrite Hn. exists n. auto.
    + exists (Z.rem a (360 * U)). split; [reflexivity|].
      split; [exact Hr | lia].
Qed.

Lemma lon_to_sign_deg_after_rem (x : float) (R : Z) :
  float_rem x (of_Z 360) = Ok (Fin R) -> 0 <= R < 360 * U ->
  lon_to_sign_deg x = lon_to_sign_deg (Fin R).
Proof.
  intros H HR. unfold lon_to_sign_deg. rewrite H.
  unfold of_Z. now rewrite float_rem_small by lia.
Qed.

Lemma lon_to_sign_deg_at_360 (x : float) :
  float_rem x (of_Z 360) = Ok (of_Z 360) ->
  lon_to_sign_deg x = Raise IndexError.
Proof.
  intros H. unfold lon_to_sign_deg. rewrite H. vm_compute. reflexivity.
Qed.

End Finite.

Module Taxonomy.
Import Run.

Lemma pq_float_rem x y : pure_quiet (float_rem x y).
Proof.
  intros e H. unfold float_rem in H.
  destruct (feq y (Fin 0)); inversion H. discriminate.
Qed.

Lemma pq_float_floor_div x y : pure_quiet (float_floor_div x y).
Proof.
  intros e H. unfold float_floor_div in H.
  destruct (feq y (Fin 0)); inversion H. discriminate.
Qed.

Lemma pq_int_of_float x : pure_quiet (int_of_float x).
Proof. intros e H. destruct x; inversion H; discriminate. Qed.

Lemma pq_float_of_int z : pure_quiet (float_of_int z).
Proof.
  intros e H. unfold float_of_int in H.
  destruct (round (z * U)); inversion H; discriminate.
Qed.

Lemma pq_int_true_div a b : pure_quiet (int_true_div a b).
Proof.
  intros e H. unfold int_true_div in H.
  destruct (Z.eqb b 0); [inversion H; discriminate|].
  destruct (round_q (a * U) b); inversion H; discriminate.
Qed.

Lemma pq_getitem {A : Type} (l : list A) i : pure_quiet (getitem l i).
Proof.
  intros e H. unfold getitem in H.
  destruct (orb _ _); [inversion H; discriminate|].
  destruct (nth_error l _); inversion H; discriminate.
Qed.

Lemma pq_unpack2 {A : Type} (t : list A) : pure_quiet (unpack2 t).
Proof.
  intros e H. destruct t as [|a [|b [|c t]]]; inversion H; discriminate.
Qed.

Lemma pq_next_lon n l : pure_quiet (next_lon n l).
Proof.
  intros e H. unfold next_lon in H.
  destruct (find _ l); inversion H; discriminate.
Qed.

Lemma pq_outcome {A : Type} (r : answer A) : pure_quiet (outcome r).
Proof. intros e H. destruct r; inversion H; discriminate. Qed.

Lemma pq_rbind {A B : Type} (r : result A) (k : A -> result B) :
  pure_quiet r -> (forall a, pure_quiet (k a)) -> pure_quiet (rbind r k).
Proof.
  intros Hr Hk e H. destruct r as [a|e']; cbn [rbind] in H.
  - now apply (Hk a).
  - inversion H; subst. now apply Hr.
Qed.

Lemma pq_ok {A : Type} (a : A) : pure_quiet (Ok a).
Proof. intros e H. discriminate H. Qed.

Lemma pq_lon_to_sign_deg x : pure_quiet (lon_to_sign_deg x).
Proof.
  unfold lon_to_sign_deg.
  repeat first
    [ match goal with
      | |- pure_quiet (Ok _) => apply pq_ok
      | |- pure_quiet (rbind _ _) => apply pq_rbind; [|intros; cbv beta zeta]
      | |- pure_quiet (float_rem _ _) => apply pq_float_rem
      | |- pure_quiet (float_floor_div _ _) => apply pq_float_floor_div
      | |- pure_quiet (float_of_int _) => apply pq_float_of_int
      | |- pure_quiet (int_of_float _) => apply pq_int_of_float
      | |- pure_quiet (getitem _ _) => apply pq_getitem
      end ].
Qed.

Lemma q_ret {A : Type} (a : A) : quiet (ret a).
Proof. intros w e w' H. discriminate H. Qed.

Lemma q_lift {A : Type} (r : result A) : pure_quiet r -> quiet (lift r).
Proof. intros Hr w e w' H. inversion H. now apply Hr. Qed.

Lemma q_settings : quiet settings.
Proof. intros w e w' H. discriminate H. Qed.

Lemma q_raise {A : Type} (e : exn) : not_http e -> quiet (@raise A e).
Proof. intros He w e' w' H. inversion H; subst. exact He. Qed.

Lemma q_bind {A B : Type} (m : M A) (k : A -> M B) :
  quiet m -> (forall a, quiet (k a)) -> quiet (bind m k).
Proof.
  intros Hm Hk w e w' H. unfold bind in H.
  destruct (m w) as [[a|e1] w1] eqn:E.
  - now apply (Hk a w1 e w').
  - inversion H; subst. now apply (Hm w e w').
Qed.

Lemma q_call {A : Type} ev (r : answer A) : quiet (call ev r).
Proof.
  unfold call. apply q_bind.
  - intros w e w' H. discriminate H.
  - intros _. apply q_lift, pq_outcome.
Qed.

Ltac q_step :=
  match goal with
  | |- quiet (bind _ _) => apply q_bind; [|intros; cbv beta]
  | |- quiet (ret _) => apply q_ret
  | |- quiet (call _ _) => apply q_call
  | |- quiet settings => apply q_settings
  | |- quiet (raise _) => apply q_raise; discriminate
  | |- quiet (lift _) => apply q_lift
  | |- pure_quiet (float_rem _ _) => apply pq_float_rem
  | |- pure_quiet (float_of_int _) => apply pq_float_of_int
  | |- pure_quiet (int_true_div _ _) => apply pq_int_true_div
  | |- pure_quiet (getitem _ _) => apply pq_getitem
  | |- pure_quiet (unpack2 _) => apply pq_unpack2
  | |- pure_quiet (next_lon _ _) => apply pq_next_lon
  | |- pure_quiet (lon_to_sign_deg _) => apply pq_lon_to_sign_deg
  | |- quiet (if ?b then _ else _) => destruct b
  | |- quiet (match ?x with _ => _ end) => destruct x
  end.

Lemma q_to_utc X d t tzid : quiet (to_utc X d t tzid).
Proof. unfold to_utc. cbv zeta. repeat q_step. Qed.

Lemma q_planet_loop X jd flags items :
  forall acc, quiet (planet_loop X jd flags items acc).
Proof.
  induction items as [|[name pid] rest IH]; intros acc; cbn [planet_loop].
  - apply q_ret.
  - destruct (String.eqb name "Ketu"); [apply IH|].
    repeat first
      [ match goal with
        | |- quiet (planet_loop _ _ _ _ _) => apply IH
        end
      | q_step ].
Qed.

(** The only [HTTPException] the [try] block raises is the 400 of its
    guard. *)
Lemma natal_body_http X req w c d w' :
  natal_body X req w = (Raise (HTTPException c d), w') ->
  lower (NatalReq.ayanamsha req) <> "lahiri" /\
  c = 400 /\ d = "Only lahiri supported" /\ w' = w.
Proof.
  unfold natal_body.
  destruct (String.eqb_spec (lower (NatalReq.ayanamsha req)) "lahiri")
    as [E|E]; cbn [negb].
  - cbv zeta.
    match goal with
    | |- ?m w = _ -> _ => assert (Hq : quiet m)
    end.
    { repeat first
        [ match goal with
          | |- quiet (to_utc _ _ _ _) => apply q_to_utc
          | |- quiet (planet_loop _ _ _ _ _) => apply q_planet_loop
          end
        | q_step ]. }
    intros H. exfalso. exact (Hq _ _ _ H c d eq_refl).
  - intros H. inversion H. auto.
Qed.


(** What one run of the time conversion does. *)
Lemma to_utc_run X d t tzid w :
  to_utc X d t tzid w =
  let s := d ++ "T" ++ t in
  match fromisoformat X s with
  | Fails msg => (Raise (LibraryError msg), after w (CallFromisoformat s))
  | Returns dt_local =>
      let w2 := after (after w (CallFromisoformat s)) (CallGettz tzid) in
      match gettz X tzid with
      | None => (Raise (ValueError "Invalid tzid"), w2)
      | Some tz => (outcome (astimezone_utc X dt_local tz),
                    after w2 (CallAstimezone dt_local))
      end
  end.
Proof.
  unfold to_utc, call, bind, emit, lift, raise, outcome, after. cbv zeta.
  destruct (fromisoformat X (d ++ "T" ++ t)) as [dt|msg]; [|reflexivity].
  cbn [swe_state trace].
  destruct (gettz X tzid) as [tz|]; [|reflexivity].
  destruct (astimezone_utc X dt tz); reflexivity.
Qed.

End Taxonomy.

Module Sample.

Lemma sample_run_eq :
  compute_natal (double f_24 f_24 f_24) (request_2000 "UTC" "lahiri")
                (startup None) = sample_run.
Proof. vm_compute. reflexivity. Qed.

(** The test double answers binary64 values for the bodies of [PLANETS]. *)
Lemma double_wf cfg jd pid flags xs :
  In (Some pid) (map snd PLANETS) ->
  calc_ut (double f_24 f_24 f_24) cfg jd pid flags = Returns xs ->
  Forall (fun x => wf x = true) xs.
Proof.
  intros Hin H.
  cbv [PLANETS map snd In swe.SUN swe.MOON swe.MARS swe.MERCURY swe.JUPITER
       swe.VENUS swe.SATURN swe.TRUE_NODE] in Hin.
  repeat (destruct Hin as [Hin|Hin];
          [try discriminate Hin; injection Hin as <-; vm_compute in H;
           injection H as <-; repeat constructor; vm_compute; reflexivity|]).
  contradiction.
Qed.

End Sample.

(* ================================================================== *)
(** ** Rounding just below 360 *)
(* ================================================================== *)

Module Tiny.
Import B64Facts PyFacts SignDeg Rounding Reduce Closure Finite.
Local Open Scope Z_scope.

(** Just below 360 the binary64 grid has the step [2^-44]; a value at most
    half a step below 360 rounds to 360. *)
Lemma round_up_to_360 (x : Z) :
  - 2 ^ 1029 <= x < 0 -> round (x + 360 * U) = Fin (360 * U).
Proof.
  intros Hx. rewrite U_eq.
  assert (Hlog : Z.log2 (x + 360 * 2 ^ 1074) = 1082).
  { apply Z.log2_unique; [lia|]. change (1082 + 1) with 1083. lia. }
  assert (Hk : ulp_exp (x + 360 * 2 ^ 1074) = 1030).
  { unfold ulp_exp. rewrite Hlog. reflexivity. }
  assert (Hc : 360 * 2 ^ 1074 = 45 * 2 ^ 47 * 2 ^ 1030) by lia.
  assert (Hq : (x + 360 * 2 ^ 1074) / 2 ^ 1030 = 45 * 2 ^ 47 - 1).
  { symmetry. apply (Z.div_unique _ _ _ (x + 2 ^ 1030)); lia. }
  assert (Hr : (x + 360 * 2 ^ 1074) mod 2 ^ 1030 = x + 2 ^ 1030).
  { symmetry. apply (Z.mod_unique _ _ (45 * 2 ^ 47 - 1)); lia. }
  assert (Hrhe : rhe (x + 360 * 2 ^ 1074) (2 ^ 1030) = 45 * 2 ^ 47).
  { unfold rhe. rewrite Hq, Hr.
    destruct (Z.ltb_spec (2 * (x + 2 ^ 1030)) (2 ^ 1030)); [lia|].
    destruct (Z.ltb_spec (2 ^ 1030) (2 * (x + 2 ^ 1030))); [lia|].
    replace (Z.even (45 * 2 ^ 47 - 1)) with false
      by (vm_compute; reflexivity).
    lia. }
  unfold round, round_q. cbv zeta.
  change (Z.abs 1) with 1. change (Z.sgn 1) with 1.
  rewrite (Z.abs_eq (x + 360 * 2 ^ 1074)) by lia.
  unfold rnd_pos. rewrite Z.div_1_r, Z.mul_1_l, Hk, Hrhe.
  replace (Z.sgn (x + 360 * 2 ^ 1074)) with 1
    by (symmetry; apply Z.sgn_pos; lia).
  rewrite !Z.mul_1_l, <- Hc.
  destruct (Z.leb_spec OVF (Z.abs (360 * 2 ^ 1074))) as [H|H];
    [|reflexivity].
  rewrite OVF_eq in H. lia.
Qed.

Lemma float_rem_tiny_negative (x : Z) :
  - 2 ^ 1029 <= x < 0 -> float_rem (Fin x) (of_Z 360) = Ok (of_Z 360).
Proof.
  intros Hx. pose proof U_pos as HU.
  assert (Hsmall : 2 ^ 1029 < 360 * U) by (rewrite U_eq; lia).
  assert (Hrem : Z.rem x (360 * U) = x).
  { rewrite <- (Z.opp_involutive x) at 1. rewrite Z.rem_opp_l by lia.
    rewrite Z.rem_small by lia. lia. }
  unfold float_rem, of_Z, nonzero, feq, fmod, flt.
  destruct (Z.eqb_spec (360 * U) 0) as [E|_]; [lia|].
  rewrite Hrem.
  destruct (Z.eqb_spec x 0) as [E|_]; [lia|]. cbn [negb].
  destruct (Z.ltb_spec (360 * U) 0); [lia|].
  destruct (Z.ltb_spec x 0); [|lia]. cbn [xorb].
  unfold fadd. now rewrite round_up_to_360.
Qed.

Lemma rhe_half (a d : Z) :
  0 <= a -> 0 < d -> 2 * (rhe a d * d) <= 2 * a + d.
Proof.
  intros Ha Hd. unfold rhe.
  pose proof (Z.div_mod a d ltac:(lia)) as E.
  pose proof (Z.mod_pos_bound a d Hd) as Hr.
  destruct (Z.ltb_spec (2 * (a mod d)) d); [lia|].
  destruct (Z.ltb_spec d (2 * (a mod d))); [lia|].
  destruct (Z.even (a / d)); lia.
Qed.

Lemma round_fin_eq (a n : Z) :
  0 <= a -> round a = Fin n ->
  n = rhe a (2 ^ ulp_exp a) * 2 ^ ulp_exp a.
Proof.
  intros Ha. unfold round, round_q. cbv zeta.
  change (Z.abs 1) with 1. change (Z.sgn 1) with 1.
  rewrite (Z.abs_eq a) by lia. unfold rnd_pos.
  rewrite Z.div_1_r, Z.mul_1_l.
  destruct (Z.leb_spec OVF
              (Z.abs (Z.sgn a * 1 *
                      (rhe a (2 ^ ulp_exp a) * 2 ^ ulp_exp a))));
    [discriminate|].
  intros Hfin. injection Hfin as <-.
  destruct (Z.eq_dec a 0) as [->|Hn].
  - unfold rhe. rewrite Z.mod_0_l, Z.div_0_l.
    + pose proof (ulp_exp_nonneg 0).
      assert (0 < 2 ^ ulp_exp 0) by (apply Z.pow_pos_nonneg; lia).
      destruct (Z.ltb_spec (2 * 0) (2 ^ ulp_exp 0)); [reflexivity | lia].
    + pose proof (ulp_exp_nonneg 0).
      assert (0 < 2 ^ ulp_exp 0) by (apply Z.pow_pos_nonneg; lia). lia.
    + pose proof (ulp_exp_nonneg 0).
      assert (0 < 2 ^ ulp_exp 0) by (apply Z.pow_pos_nonneg; lia). lia.
  - replace (Z.sgn a) with 1 by (symmetry; apply Z.sgn_pos; lia). ring.
Qed.

(** More than half a step below 360, rounding stays below 360. *)
Lemma round_stays_below_360 (a : Z) :
  0 <= a < 360 * U - 2 ^ 1029 ->
  exists n, round a = Fin n /\ is_b64 n = true /\ 0 <= n < 360 * U.
Proof.
  intros Ha. pose proof U_pos as HU.
  destruct (round_below a (360 * U)) as (n & Hn & Hrange & Hb);
    [lia | exact is_b64_360 |].
  exists n. split; [exact Hn|]. split; [exact Hb|].
  split; [lia|].
  pose proof (round_fin_eq a n (proj1 Ha) Hn) as En.
  pose proof (ulp_exp_nonneg a) as Hk.
  assert (Hd : 0 < 2 ^ ulp_exp a) by (apply Z.pow_pos_nonneg; lia).
  pose proof (rhe_half a _ (proj1 Ha) Hd) as Hh. rewrite <- En in Hh.
  assert (Hle : 2 ^ ulp_exp a <= 2 ^ 1030).
  { apply Z.pow_le_mono_r; [lia|].
    replace 1030 with (ulp_exp (360 * U))
      by (rewrite U_eq; vm_compute; reflexivity).
    apply ulp_exp_mono. lia. }
  assert (2 * 2 ^ 1029 = 2 ^ 1030) by lia.
  lia.
Qed.

(** The general form of [float_rem_tiny_negative]: what matters is the C
    remainder of the argument. *)
Lemma float_rem_is_360 (x : Z) :
  - 2 ^ 1029 <= Z.rem x (360 * U) < 0 ->
  float_rem (Fin x) (of_Z 360) = Ok (of_Z 360).
Proof.
  intros Hr. pose proof U_pos as HU.
  unfold float_rem, of_Z, nonzero, feq, fmod, flt.
  destruct (Z.eqb_spec (360 * U) 0) as [E|_]; [lia|].
  destruct (Z.eqb_spec (Z.rem x (360 * U)) 0) as [E|_]; [lia|]. cbn [negb].
  destruct (Z.ltb_spec (360 * U) 0); [lia|].
  destruct (Z.ltb_spec (Z.rem x (360 * U)) 0); [|lia]. cbn [xorb].
  unfold fadd. now rewrite round_up_to_360.
Qed.

Lemma float_rem_below_360 (x : Z) :
  is_b64 x = true -> ~ (- 2 ^ 1029 <= Z.rem x (360 * U) < 0) ->
  exists R, float_rem (Fin x) (of_Z 360) = Ok (Fin R) /\
            is_b64 R = true /\ 0 <= R < 360 * U.
Proof.
  intros Hb Hr. pose proof U_pos as HU.
  pose proof (is_b64_rem x (360 * U) Hb is_b64_360 ltac:(lia)) as Hrb.
  pose proof (Z.rem_bound_abs x (360 * U) ltac:(lia)) as Habs.
  unfold float_rem, of_Z, nonzero, feq, fmod, flt.
  destruct (Z.eqb_spec (360 * U) 0) as [E|_]; [lia|].
  destruct (Z.eqb_spec (Z.rem x (360 * U)) 0) as [E0|E0]; cbn [negb].
  - exists 0. split; [reflexivity|]. split; [reflexivity | lia].
  - destruct (Z.ltb_spec (360 * U) 0); [lia|].
    destruct (Z.ltb_spec (Z.rem x (360 * U)) 0) as [Hneg|Hpos]; cbn [xorb].
    + unfold fadd.
      destruct (round_stays_below_360 (Z.rem x (360 * U) + 360 * U))
        as (n & Hn & Hnb & Hrange); [lia|].
      rewrite Hn. exists n. auto.
    + exists (Z.rem x (360 * U)). split; [reflexivity|].
      split; [exact Hrb | lia].
Qed.


End Tiny.

(* ================================================================== *)
(** ** The properties of the specification *)
(* ================================================================== *)

Import B64Facts PyFacts SignDeg Run SortFacts Natal Shape Names Rounding Reduce Closure Invariant Finite Taxonomy Sample Tiny.

(** C2.  For every binary64 longitude [L] with [0 <= L < 360], the mapping
    returns the sign [SIGNS[floor(L/30)]] and the degree
    [L - 30*floor(L/30)], computed without any rounding, and that degree
    lies in [0,30).  ([L] is in units of [2^-1074], so [L / (30 * U)] is
    [floor(L/30)].) *)
Theorem lon_to_sign_deg_spec (L : Z) :
  is_b64 L = true -> 0 <= L < 360 * U ->
  lon_to_sign_deg (Fin L) =
    Ok (nth (Z.to_nat (L / (30 * U))) SIGNS "",
        Fin (L - 30 * U * (L / (30 * U)))) /\
  0 <= L / (30 * U) < 12 /\
  0 <= L - 30 * U * (L / (30 * U)) < 30 * U.
Proof.
  intros Hb HL. pose proof U_pos as HU.
  rewrite (lon_to_sign_deg_in_range L Hb HL).
  rewrite (Z.mod_eq L (30 * U)) by lia.
  split; [reflexivity|]. split.
  - split; [apply Z.div_pos; lia | apply Z.div_lt_upper_bound; lia].
  - rewrite <- Z.mod_eq by lia. apply Z.mod_pos_bound. lia.
Qed.

Lemma lon_to_sign_deg_spec_witness :
  is_b64 (91 * 2 ^ 1073) = true /\
  0 <= 91 * 2 ^ 1073 < 360 * U /\
  lon_to_sign_deg (Fin (91 * 2 ^ 1073)) = Ok ("Taurus", Fin (31 * 2 ^ 1073)).
Proof.
  assert (Hb : is_b64 (91 * 2 ^ 1073) = true) by (vm_compute; reflexivity).
  assert (Hr : 0 <= 91 * 2 ^ 1073 < 360 * U)
    by (split; vm_compute; [discriminate | reflexivity]).
  split; [exact Hb|]. split; [exact Hr|].
  destruct (lon_to_sign_deg_spec (91 * 2 ^ 1073) Hb Hr) as [H _].
  rewrite H. vm_compute. reflexivity.
Defined.

(** C9.  The mapping is not total on the finite floats: at the binary64
    value [-2^-70] the reduction [lon % 360.0] rounds to 360.0 itself, the
    sign index is 12 and the indexing of [SIGNS] raises [IndexError]. *)
Theorem lon_to_sign_deg_tiny_negative :
  wf (Fin (- 2 ^ 1004)) = true /\
  float_rem (Fin (- 2 ^ 1004)) (of_Z 360) = Ok (of_Z 360) /\
  lon_to_sign_deg (Fin (- 2 ^ 1004)) = Raise IndexError.
Proof. vm_compute. repeat split; reflexivity. Qed.

(** C5.  A natal request whose ayanamsha does not lower to "lahiri" is
    answered by HTTP 400 and leaves the process state as it was: no call
    to the ephemeris, to the time conversion or to anything else has been
    made, and nothing has been printed. *)
Theorem unsupported_ayanamsha_rejected (X : externals) (req : NatalReq.t)
    (w : world) :
  lower (NatalReq.ayanamsha req) <> "lahiri" ->
  compute_natal X req w =
    (Raise (HTTPException 400 "Only lahiri supported"), w).
Proof.
  intros H. unfold compute_natal, try_except, natal_body.
  destruct (String.eqb_spec (lower (NatalReq.ayanamsha req)) "lahiri")
    as [E|_]; [contradiction|].
  reflexivity.
Qed.

Lemma unsupported_ayanamsha_rejected_witness :
  lower "sayana" <> "lahiri" /\
  compute_natal (double f_24 f_24 f_24) (request_2000 "UTC" "sayana")
                (startup None) =
    (Raise (HTTPException 400 "Only lahiri supported"), startup None).
Proof.
  split.
  - vm_compute. discriminate.
  - apply (unsupported_ayanamsha_rejected (double f_24 f_24 f_24)
             (request_2000 "UTC" "sayana") (startup None)).
    vm_compute. discriminate.
Defined.

(** C7.  The geocode handler answers HTTP 404 exactly when the provider
    returns no match; when the provider returns a match the handler
    succeeds, and every successful response carries the sentinel "UNKNOWN"
    as tzid, the provider's own coordinates and its display string. *)
Theorem geocode_place_spec (X : externals) (req : GeocodeReq.t) (w : world) :
  (geocode X (GeocodeReq.place req) 20 = Returns None ->
   fst (geocode_place X req w) = Raise (HTTPException 404 "Place not found"))
  /\
  (forall d, fst (geocode_place X req w) = Raise (HTTPException 404 d) ->
             geocode X (GeocodeReq.place req) 20 = Returns None)
  /\
  (forall loc, geocode X (GeocodeReq.place req) 20 = Returns (Some loc) ->
     fst (geocode_place X req w) =
       Ok {| GeocodeResp.lat := Location.latitude loc;
             GeocodeResp.lon := Location.longitude loc;
             GeocodeResp.tzid := "UNKNOWN";
             GeocodeResp.normalized_place := Location.address loc |})
  /\
  (forall resp, fst (geocode_place X req w) = Ok resp ->
     GeocodeResp.tzid resp = "UNKNOWN" /\
     exists loc, geocode X (GeocodeReq.place req) 20 = Returns (Some loc) /\
                 GeocodeResp.lat resp = Location.latitude loc /\
                 GeocodeResp.lon resp = Location.longitude loc).
Proof.
  rewrite geocode_place_run. cbn [fst].
  destruct (geocode X (GeocodeReq.place req) 20) as [[loc|]|msg];
    repeat split; intros; try discriminate; try reflexivity.
  - injection H as <-. reflexivity.
  - injection H as <-. reflexivity.
  - exists loc. injection H as <-. cbn. auto.
Qed.

Lemma geocode_place_spec_witness :
  fst (geocode_place (double f_24 f_24 f_24)
         {| GeocodeReq.place := "Delhi" |} (startup None)) =
    Ok {| GeocodeResp.lat := Location.latitude delhi;
          GeocodeResp.lon := Location.longitude delhi;
          GeocodeResp.tzid := "UNKNOWN";
          GeocodeResp.normalized_place := "Delhi, India" |} /\
  fst (geocode_place (double f_24 f_24 f_24)
         {| GeocodeReq.place := "" |} (startup None)) =
    Raise (HTTPException 404 "Place not found").
Proof.
  split.
  - exact (proj1 (proj2 (proj2
             (geocode_place_spec (double f_24 f_24 f_24)
                {| GeocodeReq.place := "Delhi" |} (startup None))))
             delhi eq_refl).
  - exact (proj1
             (geocode_place_spec (double f_24 f_24 f_24)
                {| GeocodeReq.place := "" |} (startup None))
             eq_refl).
Defined.

(** C6, as stated, fails: a request whose tzid does not resolve and whose
    ayanamsha is not lahiri is answered by HTTP 400, not 500. *)
Lemma unknown_tzid_with_other_ayanamsha_is_400 :
  gettz (double f_24 f_24 f_24) "Not/AZone" = None /\
  fst (compute_natal (double f_24 f_24 f_24)
         (request_2000 "Not/AZone" "sayana") (startup None)) =
    Raise (HTTPException 400 "Only lahiri supported") /\
  ~ (exists d w',
       compute_natal (double f_24 f_24 f_24)
         (request_2000 "Not/AZone" "sayana") (startup None) =
         (Raise (HTTPException 500 d), w')).
Proof.
  split; [reflexivity|]. split; [vm_compute; reflexivity|].
  intros (d & w' & H).
  vm_compute in H. discriminate.
Qed.

Lemma internal_error_flattened (X : externals) (req : NatalReq.t) (w w1 : world)
    (e : exn) :
  natal_body X req w = (Raise e, w1) ->
  (forall c d, e <> HTTPException c d) ->
  compute_natal X req w =
    (Raise (HTTPException 500 "Internal error computing chart"),
     after (after w1 (Print "NATAL_ERROR:" (repr X e))) (PrintExc e)).
Proof.
  intros H Hne. unfold compute_natal, try_except. rewrite H.
  destruct e; try reflexivity. now destruct (Hne status_code detail).
Qed.

(** C6, amended.  When the ayanamsha is lahiri and the tzid does not
    resolve, the handler fails with the generic HTTP 500, without having
    called the ephemeris; any other failure of the computation that is not
    an [HTTPException] yields the very same response. *)
Theorem unknown_tzid_is_internal_error (X : externals) (req : NatalReq.t)
    (w : world) :
  lower (NatalReq.ayanamsha req) = "lahiri" ->
  gettz X (NatalReq.tzid req) = None ->
  (exists w',
     compute_natal X req w =
       (Raise (HTTPException 500 "Internal error computing chart"), w') /\
     filter is_ephemeris_call (trace w') = filter is_ephemeris_call (trace w))
  /\
  (forall req2 w2 w3 e,
     natal_body X req2 w2 = (Raise e, w3) ->
     (forall c d, e <> HTTPException c d) ->
     fst (compute_natal X req2 w2) = fst (compute_natal X req w)).
Proof.
  intros Hay Htz.
  assert (Hbody : exists e w1,
     natal_body X req w = (Raise e, w1) /\ (forall c d, e <> HTTPException c d) /\
     filter is_ephemeris_call (trace w1) = filter is_ephemeris_call (trace w)).
  { unfold natal_body. rewrite Hay. cbn [String.eqb Ascii.eqb Bool.eqb negb].
    unfold to_utc.
    unfold bind at 1. unfold bind at 1. unfold call at 1.
    unfold bind at 1. unfold emit at 1. unfold lift at 1.
    destruct (fromisoformat X _) as [dt|msg]; cbn [outcome].
    - unfold bind at 1. unfold call at 1. unfold bind at 1.
      unfold emit at 1. unfold lift at 1. cbn [outcome]. rewrite Htz.
      unfold raise. eexists _, _. split; [reflexivity|].
      split; [discriminate|].
      cbn [trace]. rewrite !filter_app. cbn. now rewrite !app_nil_r.
    - eexists _, _. split; [reflexivity|]. split; [discriminate|].
      cbn [trace]. rewrite !filter_app. cbn. now rewrite !app_nil_r. }
  destruct Hbody as (e & w1 & Hb & Hne & Htr).
  pose proof (internal_error_flattened X req w w1 e Hb Hne) as Hc.
  split.
  - eexists. split; [exact Hc|].
    unfold after. cbn [trace]. rewrite !filter_app. cbn.
    now rewrite !app_nil_r.
  - intros req2 w2 w3 e2 H2 Hne2.
    rewrite Hc, (internal_error_flattened X req2 w2 w3 e2 H2 Hne2).
    reflexivity.
Qed.

Lemma unknown_tzid_is_internal_error_witness :
  lower "Lahiri" = "lahiri" /\
  gettz (double f_24 f_24 f_24) "Not/AZone" = None /\
  exists w',
    compute_natal (double f_24 f_24 f_24) (request_2000 "Not/AZone" "Lahiri")
                  (startup None) =
      (Raise (HTTPException 500 "Internal error computing chart"), w').
Proof.
  split; [reflexivity|]. split; [reflexivity|].
  destruct (unknown_tzid_is_internal_error (double f_24 f_24 f_24)
              (request_2000 "Not/AZone" "Lahiri") (startup None))
    as [(w' & H & _) _]; [reflexivity | reflexivity |].
  exists w'. exact H.
Defined.

(** C3.  A successful natal response has exactly nine planet entries,
    named Jupiter, Ketu, Mars, Mercury, Moon, Rahu, Saturn, Sun, Venus in
    this order, which is strictly ascending by name; it is the sort of the
    entries computed in the order Sun .. Rahu, Ketu, and sorting any other
    arrangement of these entries gives the same sequence. *)
Theorem planets_sorted_by_name (X : externals) (req : NatalReq.t)
    (w w' : world) (resp : NatalResp.t) :
  compute_natal X req w = (Ok resp, w') ->
  List.length (NatalResp.planets resp) = 9%nat /\
  map PlanetOut.name (NatalResp.planets resp) =
    ["Jupiter"; "Ketu"; "Mars"; "Mercury"; "Moon"; "Rahu"; "Saturn"; "Sun";
     "Venus"] /\
  StronglySorted name_lt (NatalResp.planets resp) /\
  exists planets_out,
    map PlanetOut.name planets_out =
      ["Sun"; "Moon"; "Mars"; "Mercury"; "Jupiter"; "Venus"; "Saturn";
       "Rahu"; "Ketu"] /\
    forall l, Permutation l planets_out ->
              sorted_by_name l = NatalResp.planets resp.
Proof.
  intros H. apply natal_planets in H.
  destruct H as (jd & sun & moon & mars & mercury & jupiter & venus & saturn &
                 rahu & ketu & Hpl & Hsort & Hnames & _).
  assert (Hnd : NoDup (map PlanetOut.name
            [sun; moon; mars; mercury; jupiter; venus; saturn; rahu; ketu]))
    by (rewrite Hnames; exact computed_names_nodup).
  assert (Hmap : map PlanetOut.name (NatalResp.planets resp) =
    ["Jupiter"; "Ketu"; "Mars"; "Mercury"; "Moon"; "Rahu"; "Saturn"; "Sun";
     "Venus"]).
  { rewrite Hpl. cbn [map] in *. inversion Hnames. reflexivity. }
  split; [now rewrite Hpl|]. split; [exact Hmap|]. split.
  - rewrite Hsort. apply sorted_strict; [apply sorted_by_name_sorted|].
    eapply Permutation_NoDup; [|exact Hnd].
    apply Permutation_map. symmetry. apply sorted_by_name_perm.
  - exists [sun; moon; mars; mercury; jupiter; venus; saturn; rahu; ketu].
    split; [exact Hnames|].
    intros l Hl. rewrite Hsort. now apply sorted_by_name_any_order.
Qed.

Lemma planets_sorted_by_name_witness :
  exists resp w',
    compute_natal (double f_24 f_24 f_0_1) (request_2000 "UTC" "lahiri")
                  (startup None) = (Ok resp, w') /\
    map PlanetOut.name (NatalResp.planets resp) =
      ["Jupiter"; "Ketu"; "Mars"; "Mercury"; "Moon"; "Rahu"; "Saturn"; "Sun";
       "Venus"].
Proof.
  let v := eval vm_compute in
      (compute_natal (double f_24 f_24 f_0_1) (request_2000 "UTC" "lahiri")
                     (startup None)) in
  match v with
  | (Ok ?resp, ?w') =>
      assert (E : compute_natal (double f_24 f_24 f_0_1)
                    (request_2000 "UTC" "lahiri") (startup None) =
                  (Ok resp, w')) by (vm_compute; reflexivity);
      exists resp, w'; split; [exact E|];
      exact (proj1 (proj2 (planets_sorted_by_name _ _ _ _ _ E)))
  end.
Defined.

(** C1.  In a successful natal response the entry named Ketu has the
    longitude [(Rahu.lon + 180.0) % 360.0] of the entry named Rahu, in
    the program's own float arithmetic, and Ketu's sign and degree are
    [lon_to_sign_deg] of that longitude, as for every other entry. *)
Theorem ketu_opposite_rahu (X : externals) (req : NatalReq.t)
    (w w' : world) (resp : NatalResp.t) :
  compute_natal X req w = (Ok resp, w') ->
  exists rahu ketu,
    In rahu (NatalResp.planets resp) /\ PlanetOut.name rahu = "Rahu" /\
    In ketu (NatalResp.planets resp) /\ PlanetOut.name ketu = "Ketu" /\
    (forall p, In p (NatalResp.planets resp) ->
               PlanetOut.name p = "Rahu" -> p = rahu) /\
    (forall p, In p (NatalResp.planets resp) ->
               PlanetOut.name p = "Ketu" -> p = ketu) /\
    float_rem (fadd (PlanetOut.lon rahu) (of_Z 180)) (of_Z 360) =
      Ok (PlanetOut.lon ketu) /\
    lon_to_sign_deg (PlanetOut.lon ketu) =
      Ok (PlanetOut.sign ketu, PlanetOut.degree ketu) /\
    Forall entry_ok (NatalResp.planets resp).
Proof.
  intros H. apply natal_planets in H.
  destruct H as (jd & sun & moon & mars & mercury & jupiter & venus & saturn &
                 rahu & ketu & Hpl & _ & Hnames & Hok & _ & _ & _ & _ & _ & _ &
                 _ & _ & Hk).
  cbn [map] in Hnames.
  injection Hnames as N1 N2 N3 N4 N5 N6 N7 N8 N9.
  exists rahu, ketu. rewrite Hpl in *.
  assert (Hkok : entry_ok ketu).
  { rewrite Forall_forall in Hok. apply Hok. cbn [In]. tauto. }
  split; [cbn [In]; tauto|]. split; [exact N8|].
  split; [cbn [In]; tauto|]. split; [exact N9|].
  split; [|split; [|split; [exact Hk | split; [exact Hkok | exact Hok]]]].
  - intros p Hin Hn. cbn [In] in Hin.
    repeat (destruct Hin as [<-|Hin];
            [first [reflexivity | exfalso; congruence]|]).
    contradiction.
  - intros p Hin Hn. cbn [In] in Hin.
    repeat (destruct Hin as [<-|Hin];
            [first [reflexivity | exfalso; congruence]|]).
    contradiction.
Qed.

Lemma ketu_opposite_rahu_witness :
  exists resp w',
    compute_natal (double f_24 f_24 f_0_1) (request_2000 "UTC" "lahiri")
                  (startup None) = (Ok resp, w') /\
    exists rahu ketu,
      In rahu (NatalResp.planets resp) /\ PlanetOut.name rahu = "Rahu" /\
      In ketu (NatalResp.planets resp) /\ PlanetOut.name ketu = "Ketu" /\
      float_rem (fadd (PlanetOut.lon rahu) (of_Z 180)) (of_Z 360) =
        Ok (PlanetOut.lon ketu).
Proof.
  let v := eval vm_compute in
      (compute_natal (double f_24 f_24 f_0_1) (request_2000 "UTC" "lahiri")
                     (startup None)) in
  match v with
  | (Ok ?resp, ?w') =>
      assert (E : compute_natal (double f_24 f_24 f_0_1)
                    (request_2000 "UTC" "lahiri") (startup None) =
                  (Ok resp, w')) by (vm_compute; reflexivity);
      exists resp, w'; split; [exact E|];
      destruct (ketu_opposite_rahu _ _ _ _ _ E)
        as (rahu & ketu & H1 & H2 & H3 & H4 & _ & _ & H5 & _);
      exists rahu, ketu; repeat (split; [assumption|]); exact H5
  end.
Defined.

(** C10, as stated, fails: with the true node at the binary64 value 0.1,
    the sum [0.1 + 180.0] is rounded, and the degree of Ketu differs from
    the degree of Rahu. *)
Lemma ketu_degree_differs_from_rahu :
  wf f_0_1 = true /\
  exists resp w' rahu ketu,
    compute_natal (double f_24 f_24 f_0_1) (request_2000 "UTC" "lahiri")
                  (startup None) = (Ok resp, w') /\
    In rahu (NatalResp.planets resp) /\ PlanetOut.name rahu = "Rahu" /\
    In ketu (NatalResp.planets resp) /\ PlanetOut.name ketu = "Ketu" /\
    PlanetOut.degree ketu <> PlanetOut.degree rahu.
Proof.
  split; [vm_compute; reflexivity|].
  let v := eval vm_compute in
      (compute_natal (double f_24 f_24 f_0_1) (request_2000 "UTC" "lahiri")
                     (startup None)) in
  match v with
  | (Ok ?resp, ?w') =>
      exists resp, w';
      let l := eval cbv [NatalResp.planets] in (NatalResp.planets resp) in
      match l with
      | [_; ?ketu; _; _; _; ?rahu; _; _; _] =>
          exists rahu, ketu;
          split; [vm_compute; reflexivity|];
          split; [cbv [NatalResp.planets In]; tauto|];
          split; [reflexivity|];
          split; [cbv [NatalResp.planets In]; tauto|];
          split; [reflexivity|];
          cbv [PlanetOut.degree]; intros H; inversion H
      end
  end.
Qed.

(** C10, amended.  In a successful natal response computed from a binary64
    longitude of the true node, whenever the float addition
    [Rahu.lon + 180.0] is exact, the degree of Ketu equals the degree of
    Rahu and the sign of Ketu is six signs after the sign of Rahu. *)
Theorem ketu_mirrors_rahu_when_exact (X : externals) (req : NatalReq.t)
    (w w' : world) (resp : NatalResp.t) (rahu ketu : PlanetOut.t) (R : Z) :
  (forall cfg jd flags xs,
     calc_ut X cfg jd swe.TRUE_NODE flags = Returns xs ->
     Forall (fun x => wf x = true) xs) ->
  compute_natal X req w = (Ok resp, w') ->
  In rahu (NatalResp.planets resp) -> PlanetOut.name rahu = "Rahu" ->
  In ketu (NatalResp.planets resp) -> PlanetOut.name ketu = "Ketu" ->
  PlanetOut.lon rahu = Fin R ->
  fadd (Fin R) (of_Z 180) = Fin (R + 180 * U) ->
  PlanetOut.degree ketu = PlanetOut.degree rahu /\
  exists i, 0 <= i < 12 /\
    PlanetOut.sign rahu = nth (Z.to_nat i) SIGNS "" /\
    PlanetOut.sign ketu = nth (Z.to_nat ((i + 6) mod 12)) SIGNS "".
Proof.
  intros Hwf Hrun Hinr Hnr Hink Hnk HR Hexact.
  pose proof U_pos as HU.
  apply rahu_ketu in Hrun.
  destruct Hrun as (jd & rahu0 & ketu0 & Hur & Huk & Heph & Hokr & Hokk & Hk).
  rewrite <- (Hur rahu Hinr Hnr) in *. rewrite <- (Huk ketu Hink Hnk) in *.
  clear Hur Huk rahu0 ketu0.
  destruct Heph as (xs & x & y & Hc & Hf & Hx).
  assert (Hwx : wf x = true).
  { specialize (Hwf _ _ _ _ Hc).
    destruct xs as [|x' [|y' xs']]; [discriminate Hf | discriminate Hf |].
    cbn [firstn] in Hf. injection Hf as Ex _. rewrite <- Ex.
    exact (Forall_inv Hwf). }
  destruct (float_rem_360 x _ Hwx Hx) as [En|(R' & ER & Hb & Hrange)];
    [congruence|].
  rewrite HR in ER. inversion ER; subst R'. clear ER.
  assert (Hsum : is_b64 (R + 180 * U) = true).
  { destruct (round_below (R + 180 * U) (540 * U)) as (n & Hn & _ & Hnb);
      [lia | exact is_b64_540 |].
    unfold fadd, of_Z in Hexact. rewrite Hn in Hexact.
    inversion Hexact. congruence. }
  set (V := 30 * U) in *.
  assert (HV : 0 < V) by (unfold V; lia).
  assert (E360 : 360 * U = 12 * V) by (unfold V; ring).
  assert (E180 : 180 * U = 6 * V) by (unfold V; ring).
  rewrite HR, Hexact in Hk. unfold of_Z in Hk.
  rewrite float_rem_nonneg in Hk by lia.
  assert (HK : Fin ((R + 180 * U) mod (360 * U)) = PlanetOut.lon ketu)
    by congruence.
  clear Hk.
  assert (HKb : is_b64 ((R + 180 * U) mod (360 * U)) = true).
  { rewrite <- Z.rem_mod_nonneg by lia.
    apply is_b64_rem; [exact Hsum | exact is_b64_360 | lia]. }
  assert (HKr : 0 <= (R + 180 * U) mod (360 * U) < 360 * U)
    by (apply Z.mod_pos_bound; lia).
  unfold entry_ok in Hokk, Hokr.
  rewrite <- HK, lon_to_sign_deg_in_range in Hokk by assumption.
  rewrite HR, lon_to_sign_deg_closed in Hokr by assumption.
  fold V in Hokk, Hokr. rewrite E360, E180 in *.
  destruct (shift_six V R HV) as [Hdeg Hsign].
  rewrite Hdeg, Hsign in Hokk.
  split; [congruence|].
  exists (R mod (12 * V) / V). split; [|split; congruence].
  split; [apply Z.div_pos; [apply Z.mod_pos_bound|]; lia|].
  apply Z.div_lt_upper_bound; [lia|].
  rewrite Z.mul_comm. apply Z.mod_pos_bound. lia.
Qed.

Lemma ketu_mirrors_rahu_when_exact_witness :
  exists resp w' rahu ketu,
    compute_natal (double f_24 f_24 f_24) (request_2000 "UTC" "lahiri")
                  (startup None) = (Ok resp, w') /\
    In rahu (NatalResp.planets resp) /\ PlanetOut.name rahu = "Rahu" /\
    In ketu (NatalResp.planets resp) /\ PlanetOut.name ketu = "Ketu" /\
    PlanetOut.lon rahu = Fin (24 * U) /\
    fadd (Fin (24 * U)) (of_Z 180) = Fin (24 * U + 180 * U) /\
    PlanetOut.degree ketu = PlanetOut.degree rahu.
Proof.
  assert (Hwf : forall cfg jd flags xs,
     calc_ut (double f_24 f_24 f_24) cfg jd swe.TRUE_NODE flags = Returns xs ->
     Forall (fun x => wf x = true) xs).
  { intros cfg jd flags xs H. vm_compute in H. injection H as <-.
    repeat constructor; vm_compute; reflexivity. }
  let v := eval vm_compute in
      (compute_natal (double f_24 f_24 f_24) (request_2000 "UTC" "lahiri")
                     (startup None)) in
  match v with
  | (Ok ?resp, ?w') =>
      let l := eval cbv [NatalResp.planets] in (NatalResp.planets resp) in
      match l with
      | [_; ?ketu; _; _; _; ?rahu; _; _; _] =>
          assert (E : compute_natal (double f_24 f_24 f_24)
                        (request_2000 "UTC" "lahiri") (startup None) =
                      (Ok resp, w')) by (vm_compute; reflexivity);
          assert (Hir : In rahu (NatalResp.planets resp))
            by (cbv [NatalResp.planets In]; tauto);
          assert (Hik : In ketu (NatalResp.planets resp))
            by (cbv [NatalResp.planets In]; tauto);
          assert (Hnr : PlanetOut.name rahu = "Rahu") by reflexivity;
          assert (Hnk : PlanetOut.name ketu = "Ketu") by reflexivity;
          assert (Hl : PlanetOut.lon rahu = Fin (24 * U))
            by (vm_compute; reflexivity);
          assert (Ha : fadd (Fin (24 * U)) (of_Z 180) = Fin (24 * U + 180 * U))
            by (vm_compute; reflexivity);
          exists resp, w', rahu, ketu;
          split; [exact E|]; split; [exact Hir|]; split; [exact Hnr|];
          split; [exact Hik|]; split; [exact Hnk|]; split; [exact Hl|];
          split; [exact Ha|];
          exact (proj1 (ketu_mirrors_rahu_when_exact _ _ _ _ _ _ _ _
                          Hwf E Hir Hnr Hik Hnk Hl Ha))
      end
  end.
Defined.

(** C4.  The ascendant longitude of a successful response can be 360.0
    itself: with a tropical ascendant of 24.0 and an ayanamsha one unit in
    the last place above 24.0, the difference is [-2^-48] and
    [(asc_trop - ay) % 360.0] rounds to 360.0; the entry then reads
    lon 360.0, sign Aries, degree 0.0. *)
Theorem ascendant_can_be_360 :
  wf f_24 = true /\ wf f_24_next = true /\
  exists resp w',
    compute_natal (double f_24 f_24_next f_24) (request_2000 "UTC" "lahiri")
                  (startup None) = (Ok resp, w') /\
    float_rem (fsub f_24 f_24_next) (of_Z 360) = Ok (of_Z 360) /\
    PlanetOut.lon (NatalResp.ascendant resp) = of_Z 360 /\
    PlanetOut.sign (NatalResp.ascendant resp) = "Aries" /\
    PlanetOut.degree (NatalResp.ascendant resp) = Fin 0.
Proof.
  split; [vm_compute; reflexivity|]. split; [vm_compute; reflexivity|].
  let v := eval vm_compute in
      (compute_natal (double f_24 f_24_next f_24)
                     (request_2000 "UTC" "lahiri") (startup None)) in
  match v with
  | (Ok ?resp, ?w') =>
      exists resp, w';
      split; [vm_compute; reflexivity|];
      split; [vm_compute; reflexivity|];
      split; [vm_compute; reflexivity|];
      split; vm_compute; reflexivity
  end.
Qed.

(* ================================================================== *)
(** ** Further properties of the code *)
(* ================================================================== *)

(** X1.  On every non-negative binary64 longitude, of any size, the
    mapping succeeds: it returns the sign number [i] in 0..11 and a degree
    in [0,30) such that the longitude modulo 360 is exactly
    [30 * i + degree]. *)
Theorem lon_to_sign_deg_total_nonneg (L : Z) :
  is_b64 L = true -> 0 <= L ->
  exists i D,
    0 <= i < 12 /\ 0 <= D < 30 * U /\
    lon_to_sign_deg (Fin L) = Ok (nth (Z.to_nat i) SIGNS "", Fin D) /\
    L mod (360 * U) = 30 * U * i + D.
Proof.
  intros Hb HL. pose proof U_pos as HU.
  pose proof (Z.mod_pos_bound L (360 * U) ltac:(lia)) as Hr.
  assert (Hrb : is_b64 (L mod (360 * U)) = true).
  { rewrite <- Z.rem_mod_nonneg by lia.
    apply is_b64_rem; [exact Hb | exact is_b64_360 | lia]. }
  destruct (split_sign_degree L HL) as (Hi & HD & Hsum).
  exists (L mod (360 * U) / (30 * U)), (L mod (30 * U)).
  split; [exact Hi|]. split; [exact HD|]. split; [|exact Hsum].
  rewrite lon_to_sign_deg_nonneg by assumption.
  rewrite lon_to_sign_deg_in_range by assumption.
  f_equal. f_equal. f_equal. apply Z.mod_mod_divide. exists 12. ring.
Qed.

Lemma lon_to_sign_deg_total_nonneg_witness :
  is_b64 (1451 * 2 ^ 1073) = true /\ 0 <= 1451 * 2 ^ 1073 /\
  exists i D,
    0 <= i < 12 /\ 0 <= D < 30 * U /\
    lon_to_sign_deg (Fin (1451 * 2 ^ 1073)) =
      Ok (nth (Z.to_nat i) SIGNS "", Fin D) /\
    (1451 * 2 ^ 1073) mod (360 * U) = 30 * U * i + D.
Proof.
  assert (Hb : is_b64 (1451 * 2 ^ 1073) = true) by (vm_compute; reflexivity).
  assert (Hn : 0 <= 1451 * 2 ^ 1073) by (vm_compute; discriminate).
  split; [exact Hb|]. split; [exact Hn|].
  exact (lon_to_sign_deg_total_nonneg _ Hb Hn).
Defined.

(** X2.  The ascendant entry of every successful response satisfies the
    entry invariant, whatever the libraries answered: its longitude is in
    [0,360] (360.0 included), and its sign and degree are exactly those of
    the longitude modulo 360. *)
Theorem ascendant_invariant (X : externals) (req : NatalReq.t)
    (w w' : world) (resp : NatalResp.t) :
  compute_natal X req w = (Ok resp, w') ->
  PlanetOut.name (NatalResp.ascendant resp) = "Ascendant" /\
  entry_invariant (NatalResp.ascendant resp).
Proof.
  intros H. apply compute_natal_ok in H.
  destruct H as (dt_utc & jd & cusps & ascmc & a0 & asc_trop & ay & new &
                 rahu_lon & ketu & _ & _ & _ & _ & _ & _ & _ & Hrem & Hsd &
                 Hname & _).
  split; [exact Hname|].
  eapply entry_invariant_intro; [apply wf_fsub | exact Hrem | exact Hsd].
Qed.

Lemma ascendant_invariant_witness :
  exists resp w',
    compute_natal (double f_24 f_24 f_24) (request_2000 "UTC" "lahiri")
                  (startup None) = (Ok resp, w') /\
    entry_invariant (NatalResp.ascendant resp).
Proof.
  pose proof sample_run_eq as E. unfold sample_run in E.
  match type of E with
  | _ = (Ok ?resp, ?w') =>
      exists resp, w'; split; [exact E|];
      exact (proj2 (ascendant_invariant _ _ _ _ _ E))
  end.
Defined.

(** X3.  When the ephemeris answers binary64 values for the eight bodies
    of [PLANETS], every one of the nine planet entries of a successful
    response satisfies the entry invariant. *)
Theorem planets_invariant (X : externals) (req : NatalReq.t)
    (w w' : world) (resp : NatalResp.t) :
  (forall cfg jd pid flags xs,
     In (Some pid) (map snd PLANETS) ->
     calc_ut X cfg jd pid flags = Returns xs ->
     Forall (fun x => wf x = true) xs) ->
  compute_natal X req w = (Ok resp, w') ->
  Forall entry_invariant (NatalResp.planets resp).
Proof.
  intros Hwf H. apply natal_planets in H.
  destruct H as (jd & sun & moon & mars & mercury & jupiter & venus & saturn &
                 rahu & ketu & Hpl & _ & _ & Hok & E1 & E2 & E3 & E4 & E5 &
                 E6 & E7 & E8 & Hk).
  assert (Hinv : forall pid p,
            In (Some pid) (map snd PLANETS) ->
            from_ephemeris X (swe_state w) jd pid p -> entry_ok p ->
            entry_invariant p).
  { intros pid p Hin (xs & x & y & Hc & Hf & Hx) Hp.
    apply (entry_invariant_intro x); [|exact Hx | exact Hp].
    specialize (Hwf _ _ _ _ _ Hin Hc).
    destruct xs as [|x' [|y' xs']]; [discriminate Hf | discriminate Hf |].
    cbn [firstn] in Hf. injection Hf as Ex _. rewrite <- Ex.
    exact (Forall_inv Hwf). }
  rewrite Hpl in *. rewrite Forall_forall in Hok.
  assert (Hin : forall pid, In pid [0; 1; 4; 2; 5; 3; 6; 11] ->
                            In (Some pid) (map snd PLANETS)).
  { intros pid Hp. cbn [In] in Hp. cbv [PLANETS map snd In].
    cbv [swe.SUN swe.MOON swe.MARS swe.MERCURY swe.JUPITER swe.VENUS
         swe.SATURN swe.TRUE_NODE].
    repeat (destruct Hp as [<-|Hp]; [tauto|]). contradiction. }
  repeat (apply Forall_cons; [|]); try apply Forall_nil.
  - apply (Hinv swe.JUPITER); [apply Hin; cbn; tauto | exact E5 |].
    apply Hok. cbn [In]. tauto.
  - apply (entry_invariant_intro (fadd (PlanetOut.lon rahu) (of_Z 180)));
      [apply wf_fadd | exact Hk |]. apply Hok. cbn [In]. tauto.
  - apply (Hinv swe.MARS); [apply Hin; cbn; tauto | exact E3 |].
    apply Hok. cbn [In]. tauto.
  - apply (Hinv swe.MERCURY); [apply Hin; cbn; tauto | exact E4 |].
    apply Hok. cbn [In]. tauto.
  - apply (Hinv swe.MOON); [apply Hin; cbn; tauto | exact E2 |].
    apply Hok. cbn [In]. tauto.
  - apply (Hinv swe.TRUE_NODE); [apply Hin; cbn; tauto | exact E8 |].
    apply Hok. cbn [In]. tauto.
  - apply (Hinv swe.SATURN); [apply Hin; cbn; tauto | exact E7 |].
    apply Hok. cbn [In]. tauto.
  - apply (Hinv swe.SUN); [apply Hin; cbn; tauto | exact E1 |].
    apply Hok. cbn [In]. tauto.
  - apply (Hinv swe.VENUS); [apply Hin; cbn; tauto | exact E6 |].
    apply Hok. cbn [In]. tauto.
Qed.

Lemma planets_invariant_witness :
  exists resp w',
    compute_natal (double f_24 f_24 f_24) (request_2000 "UTC" "lahiri")
                  (startup None) = (Ok resp, w') /\
    Forall entry_invariant (NatalResp.planets resp).
Proof.
  pose proof sample_run_eq as E. unfold sample_run in E.
  match type of E with
  | _ = (Ok ?resp, ?w') =>
      exists resp, w'; split; [exact E|];
      exact (planets_invariant _ _ _ _ _ double_wf E)
  end.
Defined.
(** X4.  What [lon_to_sign_deg] does on any binary64 argument: on NaN and
    the infinities it raises [ValueError]; on a finite argument it raises
    [IndexError] when [lon % 360.0] is 360.0 itself, and otherwise returns
    a sign and a degree in [0,30).  It raises nothing else. *)
Theorem lon_to_sign_deg_outcomes (x : float) :
  wf x = true ->
  ((forall n, x <> Fin n) /\
   lon_to_sign_deg x =
     Raise (ValueError "cannot convert float NaN to integer")) \/
  (float_rem x (of_Z 360) = Ok (of_Z 360) /\
   lon_to_sign_deg x = Raise IndexError) \/
  (exists R i D,
     float_rem x (of_Z 360) = Ok (Fin R) /\ 0 <= R < 360 * U /\
     0 <= i < 12 /\ 0 <= D < 30 * U /\ R = 30 * U * i + D /\
     lon_to_sign_deg x = Ok (nth (Z.to_nat i) SIGNS "", Fin D)).
Proof.
  intros Hx. pose proof U_pos as HU.
  destruct x as [| s | a].
  - left. split; [discriminate|]. now apply lon_to_sign_deg_not_finite.
  - left. split; [discriminate|]. now apply lon_to_sign_deg_not_finite.
  - right. cbn [wf] in Hx.
    destruct (float_rem_360_finite a Hx) as (R & Hrem & Hb & Hrange).
    destruct (Z.eq_dec R (360 * U)) as [->|Hne].
    + left. split; [exact Hrem|]. now apply lon_to_sign_deg_at_360.
    + right. exists R, (R / (30 * U)), (R mod (30 * U)).
      split; [exact Hrem|]. split; [lia|].
      split; [split; [apply Z.div_pos; lia
                     | apply Z.div_lt_upper_bound; lia]|].
      split; [apply Z.mod_pos_bound; lia|].
      split; [apply Z.div_mod; lia|].
      rewrite (lon_to_sign_deg_after_rem _ R Hrem) by lia.
      apply lon_to_sign_deg_in_range; [exact Hb | lia].
Qed.

Lemma lon_to_sign_deg_outcomes_witness :
  wf (Fin (- 91 * 2 ^ 1073)) = true /\
  lon_to_sign_deg (Fin (- 91 * 2 ^ 1073)) = Ok ("Aquarius", Fin (29 * 2 ^ 1073)).
Proof.
  assert (Hw : wf (Fin (- 91 * 2 ^ 1073)) = true) by (vm_compute; reflexivity).
  assert (E : lon_to_sign_deg (Fin (- 91 * 2 ^ 1073)) =
              Ok ("Aquarius", Fin (29 * 2 ^ 1073)))
    by (vm_compute; reflexivity).
  split; [exact Hw|].
  destruct (lon_to_sign_deg_outcomes _ Hw) as [[_ H]|[[_ H]|_]].
  - rewrite E in H. discriminate H.
  - rewrite E in H. discriminate H.
  - exact E.
Defined.

(** X5.  Ketu's longitude is always below 360: when the ephemeris answers a
    binary64 longitude for the true node, the entry named Ketu of a
    successful response has a finite longitude in [0,360), even when Rahu's
    own longitude is 360.0. *)
Theorem ketu_below_360 (X : externals) (req : NatalReq.t)
    (w w' : world) (resp : NatalResp.t) (ketu : PlanetOut.t) :
  (forall cfg jd flags xs,
     calc_ut X cfg jd swe.TRUE_NODE flags = Returns xs ->
     Forall (fun x => wf x = true) xs) ->
  compute_natal X req w = (Ok resp, w') ->
  In ketu (NatalResp.planets resp) -> PlanetOut.name ketu = "Ketu" ->
  exists K, PlanetOut.lon ketu = Fin K /\ is_b64 K = true /\
            0 <= K < 360 * U.
Proof.
  intros Hwf Hrun Hink Hnk. pose proof U_pos as HU.
  apply rahu_ketu in Hrun.
  destruct Hrun as (jd & rahu & ketu0 & _ & Huk & Heph & Hokr & _ & Hk).
  rewrite <- (Huk ketu Hink Hnk) in *. clear Huk ketu0.
  destruct Heph as (xs & x & y & Hc & Hf & Hx).
  assert (Hwx : wf x = true).
  { specialize (Hwf _ _ _ _ Hc).
    destruct xs as [|x' [|y' xs']]; [discriminate Hf | discriminate Hf |].
    cbn [firstn] in Hf. injection Hf as Ex _. rewrite <- Ex.
    exact (Forall_inv Hwf). }
  destruct (float_rem_360 x _ Hwx Hx) as [En|(R & ER & Hb & Hrange)].
  { unfold entry_ok in Hokr. rewrite En in Hokr.
    rewrite lon_to_sign_deg_not_finite in Hokr by discriminate.
    discriminate Hokr. }
  rewrite ER in Hk. unfold of_Z, fadd in Hk.
  destruct (round_below (R + 180 * U) (540 * U)) as (S & HS & HSr & HSb);
    [lia | exact is_b64_540 |].
  rewrite HS, float_rem_nonneg in Hk by lia.
  exists (S mod (360 * U)).
  split; [congruence|]. split; [|apply Z.mod_pos_bound; lia].
  rewrite <- Z.rem_mod_nonneg by lia.
  apply is_b64_rem; [exact HSb | exact is_b64_360 | lia].
Qed.

Lemma ketu_below_360_witness :
  exists resp w' ketu,
    compute_natal (double f_24 f_24 f_24) (request_2000 "UTC" "lahiri")
                  (startup None) = (Ok resp, w') /\
    In ketu (NatalResp.planets resp) /\ PlanetOut.name ketu = "Ketu" /\
    exists K, PlanetOut.lon ketu = Fin K /\ is_b64 K = true /\
              0 <= K < 360 * U.
Proof.
  pose proof sample_run_eq as E. unfold sample_run in E.
  match type of E with
  | _ = (Ok ?resp, ?w') =>
      let l := eval cbv [NatalResp.planets] in (NatalResp.planets resp) in
      match l with
      | [_; ?ketu; _; _; _; _; _; _; _] =>
          assert (Hik : In ketu (NatalResp.planets resp))
            by (cbv [NatalResp.planets In]; tauto);
          assert (Hnk : PlanetOut.name ketu = "Ketu") by reflexivity;
          exists resp, w', ketu;
          split; [exact E|]; split; [exact Hik|]; split; [exact Hnk|];
          exact (ketu_below_360 _ _ _ _ _ _
                   (fun cfg jd flags xs H =>
                      double_wf cfg jd swe.TRUE_NODE flags xs
                        ltac:(cbv [PLANETS map snd In]; tauto) H)
                   E Hik Hnk)
      end
  end.
Defined.

(** X6.  The natal handler has three outcomes only: a response, HTTP 400
    "Only lahiri supported", or HTTP 500 "Internal error computing chart";
    no other exception leaves it.  The 400 is returned exactly when the
    ayanamsha does not lower to "lahiri". *)
Theorem compute_natal_outcomes (X : externals) (req : NatalReq.t) (w : world) :
  ((exists resp, fst (compute_natal X req w) = Ok resp) \/
   fst (compute_natal X req w) =
     Raise (HTTPException 400 "Only lahiri supported") \/
   fst (compute_natal X req w) =
     Raise (HTTPException 500 "Internal error computing chart")) /\
  (fst (compute_natal X req w) =
     Raise (HTTPException 400 "Only lahiri supported") <->
   lower (NatalReq.ayanamsha req) <> "lahiri").
Proof.
  assert (Hcases :
    (exists resp, fst (compute_natal X req w) = Ok resp) \/
    (fst (compute_natal X req w) =
       Raise (HTTPException 400 "Only lahiri supported") /\
     lower (NatalReq.ayanamsha req) <> "lahiri") \/
    (fst (compute_natal X req w) =
       Raise (HTTPException 500 "Internal error computing chart"))).
  { unfold compute_natal, try_except.
    destruct (natal_body X req w) as [[resp|e] w1] eqn:E.
    - left. now exists resp.
    - right. destruct e;
        try (right; unfold bind, emit, raise; reflexivity).
      apply natal_body_http in E. destruct E as (Hne & -> & -> & _).
      left. split; [reflexivity | exact Hne]. }
  split; [tauto|]. split.
  - intros H. destruct Hcases as [[resp Hr]|[[_ Hne]|H5]];
      [congruence | exact Hne | rewrite H in H5; discriminate H5].
  - intros Hne. unfold compute_natal, try_except, natal_body.
    destruct (String.eqb_spec (lower (NatalReq.ayanamsha req)) "lahiri")
      as [E|_]; [contradiction | reflexivity].
Qed.

Lemma compute_natal_outcomes_witness :
  fst (compute_natal (double f_24 f_24 f_24) (request_2000 "UTC" "sayana")
         (startup None)) =
    Raise (HTTPException 400 "Only lahiri supported") /\
  fst (compute_natal (double f_24 f_24 f_24)
         (request_2000 "Not/AZone" "lahiri") (startup None)) =
    Raise (HTTPException 500 "Internal error computing chart") /\
  exists resp,
    fst (compute_natal (double f_24 f_24 f_24) (request_2000 "UTC" "lahiri")
           (startup None)) = Ok resp.
Proof.
  split; [|split].
  - apply (proj2 (compute_natal_outcomes (double f_24 f_24 f_24)
                    (request_2000 "UTC" "sayana") (startup None))).
    vm_compute. discriminate.
  - destruct (compute_natal_outcomes (double f_24 f_24 f_24)
                (request_2000 "Not/AZone" "lahiri") (startup None))
      as [[[resp H]|[H|H]] [Hiff _]].
    + assert (E : fst (compute_natal (double f_24 f_24 f_24)
                         (request_2000 "Not/AZone" "lahiri") (startup None)) =
                  Raise (HTTPException 500 "Internal error computing chart"))
        by (vm_compute; reflexivity).
      rewrite E in H. discriminate H.
    + exfalso. apply (Hiff H). vm_compute. reflexivity.
    + exact H.
  - pose proof sample_run_eq as E. unfold sample_run in E.
    match type of E with
    | _ = (Ok ?resp, ?w') => exists resp; rewrite E; reflexivity
    end.
Defined.


(** X8.  The time conversion raises [ValueError("Invalid tzid")] exactly
    when the date and time parse and the tzid does not resolve, and then
    the conversion to UTC has not been attempted; when the date and time
    do not parse, the parser's exception propagates and the timezone is
    never looked up. *)
Theorem to_utc_errors (X : externals) (d t tzid : string) (w : world) :
  ((exists w', to_utc X d t tzid w = (Raise (ValueError "Invalid tzid"), w'))
   <->
   (exists dt, fromisoformat X (d ++ "T" ++ t) = Returns dt) /\
   gettz X tzid = None)
  /\
  (forall w', to_utc X d t tzid w = (Raise (ValueError "Invalid tzid"), w') ->
     trace w' = (trace w ++ [CallFromisoformat (d ++ "T" ++ t);
                             CallGettz tzid])%list)
  /\
  (forall msg, fromisoformat X (d ++ "T" ++ t) = Fails msg ->
     to_utc X d t tzid w =
       (Raise (LibraryError msg), after w (CallFromisoformat (d ++ "T" ++ t)))).
Proof.
  rewrite to_utc_run. cbv zeta.
  destruct (fromisoformat X (d ++ "T" ++ t)) as [dt|msg].
  - destruct (gettz X tzid) as [tz|].
    + split; [split|split].
      * intros (w' & H). destruct (astimezone_utc X dt tz); discriminate H.
      * intros (_ & H). discriminate H.
      * intros w' H. destruct (astimezone_utc X dt tz); discriminate H.
      * intros msg H. discriminate H.
    + split; [split|split].
      * intros _. split; [now exists dt | reflexivity].
      * intros _. eexists. reflexivity.
      * intros w' H. injection H as <-. cbn [after trace].
        now rewrite <- app_assoc.
      * intros msg H. discriminate H.
  - split; [split|split].
    + intros (w' & H). discriminate H.
    + intros ((dt & H) & _). discriminate H.
    + intros w' H. discriminate H.
    + intros msg' H. injection H as <-. reflexivity.
Qed.

Lemma to_utc_errors_witness :
  exists w',
    to_utc (double f_24 f_24 f_24) "2000-01-01" "12:00:00" "Not/AZone"
           (startup None) = (Raise (ValueError "Invalid tzid"), w') /\
    trace w' = [CallFromisoformat "2000-01-01T12:00:00";
                CallGettz "Not/AZone"].
Proof.
  destruct (to_utc_errors (double f_24 f_24 f_24) "2000-01-01" "12:00:00"
              "Not/AZone" (startup None)) as [[_ Hex] [Htr _]].
  destruct Hex as [w' H].
  - split; [exists noon_2000; reflexivity | reflexivity].
  - exists w'. split; [exact H|]. exact (Htr w' H).
Defined.

(** X9.  On a finite binary64 argument [x], [lon_to_sign_deg] raises
    [IndexError] exactly when the C remainder of [x] modulo 360 is negative
    and at most [2^-45] in magnitude (then [x % 360.0] rounds to 360.0 and
    the sign index is 12); in particular on every negative float of
    magnitude at most [2^-45]. *)
Theorem lon_to_sign_deg_index_error (x : Z) :
  is_b64 x = true ->
  (lon_to_sign_deg (Fin x) = Raise IndexError <->
   - 2 ^ 1029 <= Z.rem x (360 * U) < 0) /\
  (- 2 ^ 1029 <= x < 0 -> lon_to_sign_deg (Fin x) = Raise IndexError).
Proof.
  intros Hb. pose proof U_pos as HU.
  assert (Hback : - 2 ^ 1029 <= Z.rem x (360 * U) < 0 ->
                  lon_to_sign_deg (Fin x) = Raise IndexError).
  { intros Hr. now apply lon_to_sign_deg_at_360, float_rem_is_360. }
  split; [split; [|exact Hback]|].
  - intros H.
    destruct (Z_le_dec (- 2 ^ 1029) (Z.rem x (360 * U))) as [H1|H1];
      [destruct (Z_lt_dec (Z.rem x (360 * U)) 0) as [H2|H2]|];
      [lia | |];
      (destruct (float_rem_below_360 x Hb ltac:(lia))
         as (R & Hrem & HRb & HR);
       rewrite (lon_to_sign_deg_after_rem _ R Hrem HR) in H;
       rewrite lon_to_sign_deg_in_range in H by assumption;
       discriminate H).
  - intros Hx. apply Hback.
    assert (Hsmall : 2 ^ 1029 < 360 * U) by (rewrite U_eq; lia).
    replace (Z.rem x (360 * U)) with x; [exact Hx|].
    rewrite <- (Z.opp_involutive x) at 2. rewrite Z.rem_opp_l by lia.
    rewrite Z.rem_small by lia. lia.
Qed.

Lemma lon_to_sign_deg_index_error_witness :
  is_b64 (- 3 * 2 ^ 900) = true /\
  lon_to_sign_deg (Fin (- 3 * 2 ^ 900)) = Raise IndexError.
Proof.
  assert (Hb : is_b64 (- 3 * 2 ^ 900) = true) by (vm_compute; reflexivity).
  assert (H : - 2 ^ 1029 <= - 3 * 2 ^ 900 < 0)
    by (split; vm_compute; [discriminate | reflexivity]).
  split; [exact Hb|].
  exact (proj2 (lon_to_sign_deg_index_error _ Hb) H).
Defined.

(** X10.  The handler reduces every longitude modulo 360 before it calls
    [lon_to_sign_deg], and that protects the call: on the result of
    [x % 360.0], for any binary64 [x], the mapping never raises
    [IndexError]; it succeeds, 360.0 included, unless the result is NaN. *)
Theorem reduced_longitude_is_mapped (x y : float) :
  wf x = true -> float_rem x (of_Z 360) = Ok y ->
  (exists s d, lon_to_sign_deg y = Ok (s, d)) \/
  (y = NaN /\
   lon_to_sign_deg y =
     Raise (ValueError "cannot convert float NaN to integer")).
Proof.
  intros Hx H.
  destruct (float_rem_360 x y Hx H) as [->|(R & -> & Hb & HR)].
  - right. split; [reflexivity|].
    apply lon_to_sign_deg_not_finite. discriminate.
  - left. rewrite lon_to_sign_deg_closed by assumption. eauto.
Qed.

Lemma reduced_longitude_is_mapped_witness :
  wf (Fin (- 2 ^ 1004)) = true /\
  float_rem (Fin (- 2 ^ 1004)) (of_Z 360) = Ok (of_Z 360) /\
  exists s d, lon_to_sign_deg (of_Z 360) = Ok (s, d).
Proof.
  assert (Hw : wf (Fin (- 2 ^ 1004)) = true) by (vm_compute; reflexivity).
  assert (Hr : float_rem (Fin (- 2 ^ 1004)) (of_Z 360) = Ok (of_Z 360))
    by (vm_compute; reflexivity).
  split; [exact Hw|]. split; [exact Hr|].
  destruct (reduced_longitude_is_mapped _ _ Hw Hr) as [H|[H _]].
  - exact H.
  - discriminate H.
Defined.
